(** * PNG marshalling of typed images: [png.c]

    A shallow embedding of [read_png_stream], [write_png_stream] and
    [write_png_file] of [png.c], and the properties of the conversion
    between packed byte rows and typed pixels.

    Conventions.
    - Bytes ([png_byte], [uint8_t]) and dimensions are [Z]; no statement of
      [png.c] does arithmetic on a byte, so none can wrap.  The one narrowing
      conversion of the file, the assignment to [int row_size], is written
      out in [int_of].
    - Arrays are lists.  An access outside an array is undefined behaviour in
      C; here it makes the enclosing computation return [None].
    - libpng and stdio are outside the file: every call into them is recorded
      as an [event], and whether a call that can fail does fail is read from
      an oracle. *)

From Stdlib Require Import ZArith List Lia Bool.
Import ListNotations.
Local Open Scope Z_scope.

Notation "'do' x <- e ; k" :=
  (match e with Some x => k | None => None end)
  (at level 10, x pattern, e at level 100, k at level 200).

(** ** Counted loops

    [for_from i n body] is [for (k = i; k < i + n; k++) body(k)], threading
    the state and stopping at the first undefined step. *)

Fixpoint for_from {St : Type} (i : nat) (n : nat)
  (body : nat -> St -> option St) (s : St) : option St :=
  match n with
  | O => Some s
  | S n' => do s' <- body i s; for_from (S i) n' body s'
  end.

Definition for_ {St : Type} (n : nat) (body : nat -> St -> option St)
  (s : St) : option St :=
  for_from 0 n body s.

(** ** Arrays *)

Fixpoint store {A : Type} (i : nat) (v : A) (l : list A) : option (list A) :=
  match l, i with
  | [], _ => None
  | _ :: l', O => Some (v :: l')
  | x :: l', S i' => option_map (cons x) (store i' v l')
  end.

Definition load2 {A : Type} (t : list (list A)) (y i : nat) : option A :=
  do row <- nth_error t y; nth_error row i.

Definition store2 {A : Type} (y i : nat) (v : A) (t : list (list A))
  : option (list (list A)) :=
  do row <- nth_error t y; do row' <- store i v row; store y row' t.

Definition shape {A : Type} (t : list (list A)) : list nat :=
  map (@length A) t.

(** ** The transport side: libpng *)

(** [png_color] of [png.h]: one palette entry as libpng transports it. *)
Record png_color : Type := { red : Z; green : Z; blue : Z }.

(** The fields of the [png_info] structure that [png.c] reads, with the row
    pointers that [png_get_rows] returns. *)
Record png_info : Type := {
  info_width : Z;
  info_height : Z;
  info_color_type : Z;
  info_num_palette : Z;
  info_palette : list png_color;
  info_rows : list (list Z)
}.

(** Colour types of [png.h]. *)
Definition PNG_COLOR_TYPE_GRAY : Z := 0.
Definition PNG_COLOR_TYPE_RGB : Z := 2.
Definition PNG_COLOR_TYPE_PALETTE : Z := 3.
Definition PNG_COLOR_TYPE_RGB_ALPHA : Z := 6.
Definition PNG_COLOR_TYPE_RGBA : Z := PNG_COLOR_TYPE_RGB_ALPHA.

(** ** The typed image: [image.h] *)

(** Modelled from the spec: [image.h] is not part of the sources.  The four
    colour-model tags are distinct case labels of the [switch] in
    [write_png_stream]; every other value of the tag is [COLOR_TYPE_OTHER]
    and takes the [default] branch. *)
Inductive color_model : Type :=
| COLOR_TYPE_INDEX
| COLOR_TYPE_GRAY
| COLOR_TYPE_RGB
| COLOR_TYPE_RGBA
| COLOR_TYPE_OTHER (tag : Z).

(** Modelled from the spec: the member [c] of a cell, with the four channels
    that [png.c] names [r], [g], [b] and [a]. *)
Record color_t : Type := { r : Z; g : Z; b : Z; a : Z }.

(** Modelled from the spec: a palette entry is an RGB triple; [png.c] reads
    its members [r], [g] and [b] and builds it with [color_from_rgb]. *)
Record rgb_t : Type := { rgb_r : Z; rgb_g : Z; rgb_b : Z }.

(** Modelled from the spec: [color_from_rgb] is not part of the sources; it
    converts a transported triple to the internal RGB representation. *)
Definition color_from_rgb (r0 g0 b0 : Z) : rgb_t :=
  {| rgb_r := r0; rgb_g := g0; rgb_b := b0 |}.

(** Modelled from the spec: a cell of the grid holds exactly one of the
    members [i] (palette index), [g] (intensity) and [c] (colour); [png.c]
    names them [map[y][x].i], [map[y][x].g] and [map[y][x].c]. *)
Inductive pixel_t : Type :=
| Px_i (i : Z)
| Px_g (g : Z)
| Px_c (c : color_t).

(** Reading a member that is not the one the cell holds is a contract
    violation in the spec: here it is undefined. *)
Definition get_i (p : pixel_t) : option Z :=
  match p with Px_i v => Some v | _ => None end.
Definition get_g (p : pixel_t) : option Z :=
  match p with Px_g v => Some v | _ => None end.
Definition get_c (p : pixel_t) : option color_t :=
  match p with Px_c v => Some v | _ => None end.

(** Modelled from the spec: the members of [image_t] that [png.c] uses.  The
    palette table is the sequence of its valid entries. *)
Record image_t : Type := {
  img_width : Z;
  img_height : Z;
  img_color_type : color_model;
  img_palette_num : Z;
  img_palette : list rgb_t;
  img_map : list (list pixel_t)
}.

(** What the allocator cannot be asked in the model and must be told: whether
    memory is available, and what a fresh cell holds. *)
Record heap : Type := { heap_ok : bool; heap_cell : pixel_t }.

(** Modelled from the spec: [allocate_image] is not part of the sources.  It
    allocates a [width] x [height] image of the given colour model and fails
    when the allocation cannot be satisfied, for instance for non-positive
    dimensions.  A fresh image has no palette entry yet. *)
Definition allocate_image (hp : heap) (width height : Z) (type : color_model)
  : option image_t :=
  if (width <=? 0) || (height <=? 0) || negb (heap_ok hp) then None
  else Some {| img_width := width;
               img_height := height;
               img_color_type := type;
               img_palette_num := 0;
               img_palette := [];
               img_map := repeat (repeat (heap_cell hp) (Z.to_nat width))
                                 (Z.to_nat height) |}.

(** Modelled from the spec: the palette table holds at most 256 entries.
    Storing entry [i] overwrites it when it exists and appends it when [i] is
    the first free slot; any other store is out of range. *)
Definition palette_store (i : nat) (v : rgb_t) (pal : list rgb_t)
  : option (list rgb_t) :=
  if (i <? length pal)%nat then store i v pal
  else if ((i =? length pal)%nat && (i <? 256)%nat)%bool then Some (pal ++ [v])
  else None.

(** ** Reading: [read_png_stream], the [switch] of lines 72-128 *)

(** The state the [switch] works on: the decoded [info] that libpng owns and
    the image being filled. *)
Record read_state : Type := { rs_info : png_info; rs_img : image_t }.

Definition with_map (m : list (list pixel_t)) (st : read_state) : read_state :=
  {| rs_info := rs_info st;
     rs_img := {| img_width := img_width (rs_img st);
                  img_height := img_height (rs_img st);
                  img_color_type := img_color_type (rs_img st);
                  img_palette_num := img_palette_num (rs_img st);
                  img_palette := img_palette (rs_img st);
                  img_map := m |} |}.

Definition with_palette (p : list rgb_t) (st : read_state) : read_state :=
  {| rs_info := rs_info st;
     rs_img := {| img_width := img_width (rs_img st);
                  img_height := img_height (rs_img st);
                  img_color_type := img_color_type (rs_img st);
                  img_palette_num := img_palette_num (rs_img st);
                  img_palette := p;
                  img_map := img_map (rs_img st) |} |}.

Definition with_palette_num (n : Z) (st : read_state) : read_state :=
  {| rs_info := rs_info st;
     rs_img := {| img_width := img_width (rs_img st);
                  img_height := img_height (rs_img st);
                  img_color_type := img_color_type (rs_img st);
                  img_palette_num := n;
                  img_palette := img_palette (rs_img st);
                  img_map := img_map (rs_img st) |} |}.

(** [rows[y][i]] *)
Definition row_byte (st : read_state) (y i : nat) : option Z :=
  load2 (info_rows (rs_info st)) y i.

(** [img->map[y][x] = v], where [v] is the member or members just stored. *)
Definition set_cell (y x : nat) (v : pixel_t) (st : read_state)
  : option read_state :=
  do m <- store2 y x v (img_map (rs_img st)); Some (with_map m st).

(** [img->palette[i] = color_from_rgb(pc.red, pc.green, pc.blue)] with
    [pc = info->palette[i]]. *)
Definition read_palette_entry (i : nat) (st : read_state) : option read_state :=
  do pc <- nth_error (info_palette (rs_info st)) i;
  do p <- palette_store i (color_from_rgb (red pc) (green pc) (blue pc))
            (img_palette (rs_img st));
  Some (with_palette p st).

Definition height_of (st : read_state) : nat := Z.to_nat (info_height (rs_info st)).
Definition width_of (st : read_state) : nat := Z.to_nat (info_width (rs_info st)).

(** [case PNG_COLOR_TYPE_PALETTE], after the allocation. *)
Definition read_index (st : read_state) : option read_state :=
  let st := with_palette_num (info_num_palette (rs_info st)) st in
  do st <- for_ (Z.to_nat (info_num_palette (rs_info st))) read_palette_entry st;
  for_ (height_of st) (fun y =>
    for_ (width_of st) (fun x st =>
      do v <- row_byte st y x; set_cell y x (Px_i v) st)) st.

(** [case PNG_COLOR_TYPE_GRAY], after the allocation. *)
Definition read_gray (st : read_state) : option read_state :=
  for_ (height_of st) (fun y =>
    for_ (width_of st) (fun x st =>
      do v <- row_byte st y x; set_cell y x (Px_g v) st)) st.

(** [case PNG_COLOR_TYPE_RGB], after the allocation: the four stores of one
    iteration fill the member [c]. *)
Definition read_rgb (st : read_state) : option read_state :=
  for_ (height_of st) (fun y =>
    for_ (width_of st) (fun x st =>
      do v0 <- row_byte st y (x * 3 + 0);
      do v1 <- row_byte st y (x * 3 + 1);
      do v2 <- row_byte st y (x * 3 + 2);
      set_cell y x (Px_c {| r := v0; g := v1; b := v2; a := 255 |}) st)) st.

(** [case PNG_COLOR_TYPE_RGB_ALPHA], after the allocation. *)
Definition read_rgba (st : read_state) : option read_state :=
  for_ (height_of st) (fun y =>
    for_ (width_of st) (fun x st =>
      do v0 <- row_byte st y (x * 4 + 0);
      do v1 <- row_byte st y (x * 4 + 1);
      do v2 <- row_byte st y (x * 4 + 2);
      do v3 <- row_byte st y (x * 4 + 3);
      set_cell y x (Px_c {| r := v0; g := v1; b := v2; a := v3 |}) st)) st.

(** How a call ends: with a value, or in undefined behaviour. *)
Inductive outcome (A : Type) : Type :=
| Value (v : A)
| Undefined.
Arguments Value {A} v.
Arguments Undefined {A}.

(** One [case] of the [switch]: allocate, [goto error] with [img == NULL]
    when that fails, fill otherwise. *)
Definition read_case (hp : heap) (info : png_info) (type : color_model)
  (fill : read_state -> option read_state)
  : outcome (option image_t * png_info) :=
  match allocate_image hp (info_width info) (info_height info) type with
  | None => Value (None, info)
  | Some img =>
      match fill {| rs_info := info; rs_img := img |} with
      | Some st => Value (Some (rs_img st), rs_info st)
      | None => Undefined
      end
  end.

(** The [switch] on [info->color_type].  It has no [default]: for any other
    colour type [img] stays [NULL].  The result is the image returned and the
    [info] as the [switch] leaves it. *)
Definition decode_rows (hp : heap) (info : png_info)
  : outcome (option image_t * png_info) :=
  if info_color_type info =? PNG_COLOR_TYPE_PALETTE then
    read_case hp info COLOR_TYPE_INDEX read_index
  else if info_color_type info =? PNG_COLOR_TYPE_GRAY then
    read_case hp info COLOR_TYPE_GRAY read_gray
  else if info_color_type info =? PNG_COLOR_TYPE_RGB then
    read_case hp info COLOR_TYPE_RGB read_rgb
  else if info_color_type info =? PNG_COLOR_TYPE_RGB_ALPHA then
    read_case hp info COLOR_TYPE_RGBA read_rgba
  else Value (None, info).

(** What libpng does with the stream before the [switch]: the signature is
    read and compared, the two structures are created, and [png_read_png]
    either fills [info] or jumps back to [setjmp]. *)
Record read_codec : Type := {
  signature_ok : bool;
  read_struct_ok : bool;
  read_info_ok : bool;
  read_png : option png_info
}.

Definition read_png_stream (hp : heap) (fp : read_codec)
  : outcome (option image_t) :=
  if negb (signature_ok fp) then Value None
  else if negb (read_struct_ok fp) then Value None
  else if negb (read_info_ok fp) then Value None
  else match read_png fp with
       | None => Value None
       | Some info =>
           match decode_rows hp info with
           | Value (img, _) => Value img
           | Undefined => Undefined
           end
       end.

(** ** Writing: [write_png_stream] and [write_png_file] *)

Inductive result_t : Type := SUCCESS | FAILURE.

(** The calls that leave [png.c], in the order they are made.  The image
    reaches libpng in [png_write_png]: its argument is [info_ptr] as the calls
    before it have set it up, with the rows that [png_set_rows] registered as
    they are at that moment. *)
Inductive event : Type :=
| fopen_wb
| perror
| fclose
| png_create_write_struct
| png_create_info_struct
| png_init_io
| png_set_IHDR (width height bit_depth color_type : Z)
| png_malloc_row_table (height : Z)
| png_set_rows
| png_malloc_row (row_size : Z)
| png_malloc_palette (num : Z)
| png_set_PLTE (palette : list png_color) (num : Z)
| png_free
| png_write_png (info : png_info)
| png_destroy_write_struct.

(** The oracle: [codec k] tells whether the call that would be number [k] of
    the trace succeeds. *)
Definition oracle : Type := nat -> bool.

(** A step of the body of [write_png_stream]: it goes on with a value, leaves
    for the label [error] (a [NULL] result or the [longjmp] of [png_error]), or
    is undefined. *)
Inductive step (A : Type) : Type :=
| Next (v : A)
| Error
| Fault.
Arguments Next {A} v.
Arguments Error {A}.
Arguments Fault {A}.

Definition io (A : Type) : Type := list event -> step A * list event.

Definition ret {A : Type} (v : A) : io A := fun tr => (Next v, tr).

Definition bind {A B : Type} (m : io A) (k : A -> io B) : io B :=
  fun tr =>
    match m tr with
    | (Next v, tr') => k v tr'
    | (Error, tr') => (Error, tr')
    | (Fault, tr') => (Fault, tr')
    end.

Notation "x <-- m ;; k" := (bind m (fun x => k))
  (at level 61, m at next level, right associativity).
Notation "m ;;; k" := (bind m (fun _ => k))
  (at level 61, right associativity).

(** A call that cannot fail. *)
Definition emit (e : event) : io unit := fun tr => (Next tt, tr ++ [e]).

(** A call that fails when the oracle says so. *)
Definition call (codec : oracle) (e : event) : io unit :=
  fun tr => if codec (length tr) then (Next tt, tr ++ [e]) else (Error, tr ++ [e]).

(** A computation on the local arrays. *)
Definition local {A : Type} (m : option A) : io A :=
  fun tr => match m with Some v => (Next v, tr) | None => (Fault, tr) end.

(** [png_malloc(png_ptr, size)] for an [int size].  The parameter is a
    [size_t]: a negative [int] arrives as a request that no allocator
    satisfies.  The block returned is not initialised: it holds [junk]. *)
Definition png_malloc {A : Type} (codec : oracle) (e : event) (size : Z)
  (junk : A) : io (list A) :=
  fun tr =>
    if (size <? 0) || negb (codec (length tr)) then (Error, tr ++ [e])
    else (Next (repeat junk (Z.to_nat size)), tr ++ [e]).

(** The conversion to [int] of [row_size = sizeof(png_byte) * width * n]. *)
Definition int_of (z : Z) : Z := (z + 2 ^ 31) mod 2 ^ 32 - 2 ^ 31.

(** The first [switch]: the libpng colour type and [row_size], or [None] in
    the [default] branch. *)
Definition row_layout (img : image_t) : option (Z * Z) :=
  match img_color_type img with
  | COLOR_TYPE_INDEX => Some (PNG_COLOR_TYPE_PALETTE, int_of (1 * img_width img))
  | COLOR_TYPE_GRAY => Some (PNG_COLOR_TYPE_GRAY, int_of (1 * img_width img))
  | COLOR_TYPE_RGB => Some (PNG_COLOR_TYPE_RGB, int_of (1 * img_width img * 3))
  | COLOR_TYPE_RGBA => Some (PNG_COLOR_TYPE_RGBA, int_of (1 * img_width img * 4))
  | COLOR_TYPE_OTHER _ => None
  end.

(** [img->map[y][x]] and its members. *)
Definition cell (img : image_t) (y x : nat) : option pixel_t :=
  load2 (img_map img) y x.
Definition cell_i (img : image_t) (y x : nat) : option Z :=
  do p <- cell img y x; get_i p.
Definition cell_g (img : image_t) (y x : nat) : option Z :=
  do p <- cell img y x; get_g p.
Definition cell_c (img : image_t) (y x : nat) : option color_t :=
  do p <- cell img y x; get_c p.

(** [for (y = 0; y < img->height; y++) rows[y] = png_malloc(png_ptr, row_size)] *)
Fixpoint alloc_rows (codec : oracle) (junk : Z) (row_size : Z) (n : nat)
  : io (list (list Z)) :=
  match n with
  | O => ret []
  | S n' =>
      row <-- png_malloc codec (png_malloc_row row_size) row_size junk ;;
      rest <-- alloc_rows codec junk row_size n' ;;
      ret (row :: rest)
  end.

(** The copy of the palette: the three stores of one iteration fill entry [i]
    of the block. *)
Definition write_palette_entry (img : image_t) (i : nat)
  (palette : list png_color) : option (list png_color) :=
  do e <- nth_error (img_palette img) i;
  store i {| red := rgb_r e; green := rgb_g e; blue := rgb_b e |} palette.

Definition rows_of (img : image_t) : nat := Z.to_nat (img_height img).
Definition columns_of (img : image_t) : nat := Z.to_nat (img_width img).

Definition write_index (img : image_t) (rows : list (list Z))
  : option (list (list Z)) :=
  for_ (rows_of img) (fun y =>
    for_ (columns_of img) (fun x rows =>
      do v <- cell_i img y x; store2 y x v rows)) rows.

Definition write_gray (img : image_t) (rows : list (list Z))
  : option (list (list Z)) :=
  for_ (rows_of img) (fun y =>
    for_ (columns_of img) (fun x rows =>
      do v <- cell_g img y x; store2 y x v rows)) rows.

Definition write_rgb (img : image_t) (rows : list (list Z))
  : option (list (list Z)) :=
  for_ (rows_of img) (fun y =>
    for_ (columns_of img) (fun x rows =>
      do c0 <- cell_c img y x; do rows <- store2 y (x * 3 + 0) (r c0) rows;
      do c1 <- cell_c img y x; do rows <- store2 y (x * 3 + 1) (g c1) rows;
      do c2 <- cell_c img y x; store2 y (x * 3 + 2) (b c2) rows)) rows.

Definition write_rgba (img : image_t) (rows : list (list Z))
  : option (list (list Z)) :=
  for_ (rows_of img) (fun y =>
    for_ (columns_of img) (fun x rows =>
      do c0 <- cell_c img y x; do rows <- store2 y (x * 4 + 0) (r c0) rows;
      do c1 <- cell_c img y x; do rows <- store2 y (x * 4 + 1) (g c1) rows;
      do c2 <- cell_c img y x; do rows <- store2 y (x * 4 + 2) (b c2) rows;
      do c3 <- cell_c img y x; store2 y (x * 4 + 3) (a c3) rows)) rows.

(** The second [switch].  It returns the palette that [png_set_PLTE] was given
    (none outside [COLOR_TYPE_INDEX]) and the filled rows. *)
Definition write_pixels (codec : oracle) (junk : Z) (img : image_t)
  (rows : list (list Z)) : io (Z * list png_color * list (list Z)) :=
  match img_color_type img with
  | COLOR_TYPE_INDEX =>
      palette <-- png_malloc codec (png_malloc_palette (img_palette_num img))
                    (img_palette_num img)
                    {| red := junk; green := junk; blue := junk |} ;;
      palette <-- local (for_ (Z.to_nat (img_palette_num img))
                           (write_palette_entry img) palette) ;;
      call codec (png_set_PLTE palette (img_palette_num img)) ;;;
      emit png_free ;;;
      rows <-- local (write_index img rows) ;;
      ret (img_palette_num img, palette, rows)
  | COLOR_TYPE_GRAY =>
      rows <-- local (write_gray img rows) ;; ret (0, [], rows)
  | COLOR_TYPE_RGB =>
      rows <-- local (write_rgb img rows) ;; ret (0, [], rows)
  | COLOR_TYPE_RGBA =>
      rows <-- local (write_rgba img rows) ;; ret (0, [], rows)
  | COLOR_TYPE_OTHER _ => ret (0, [], rows)
  end.

(** Lines 195-264: from [png_create_write_struct] to the end of the second
    [switch].  The value is [info_ptr] as these calls have set it up. *)
Definition write_setup (codec : oracle) (junk : Z) (img : image_t)
  (color_type row_size : Z) : io png_info :=
  call codec png_create_write_struct ;;;
  call codec png_create_info_struct ;;;
  emit png_init_io ;;;
  call codec (png_set_IHDR (img_width img) (img_height img) 8 color_type) ;;;
  call codec (png_malloc_row_table (img_height img)) ;;;
  emit png_set_rows ;;;
  rows <-- alloc_rows codec junk row_size (rows_of img) ;;
  out <-- write_pixels codec junk img rows ;;
  let '(num_palette, palette, rows) := out in
  ret {| info_width := img_width img;
         info_height := img_height img;
         info_color_type := color_type;
         info_num_palette := num_palette;
         info_palette := palette;
         info_rows := rows |}.

(** Lines 195-266: the set-up, then [png_write_png]. *)
Definition write_body (codec : oracle) (junk : Z) (img : image_t)
  (color_type row_size : Z) : io unit :=
  info <-- write_setup codec junk img color_type row_size ;;
  call codec (png_write_png info).

(** How a call of [write_png_stream] or [write_png_file] ends. *)
Inductive run : Type :=
| Returned (result : result_t) (trace : list event)
| Undefined_behaviour.

(** Both exits of the body destroy the write structure. *)
Definition finish (r : step unit * list event) : run :=
  match r with
  | (Next _, tr) => Returned SUCCESS (tr ++ [png_destroy_write_struct])
  | (Error, tr) => Returned FAILURE (tr ++ [png_destroy_write_struct])
  | (Fault, _) => Undefined_behaviour
  end.

(** [write_png_stream(fp, img)], started after the calls in [before]; [None]
    is the null pointer. *)
Definition write_png_stream_from (before : list event) (codec : oracle)
  (junk : Z) (img : option image_t) : run :=
  match img with
  | None => Returned FAILURE before
  | Some img =>
      match row_layout img with
      | None => Returned FAILURE before
      | Some (color_type, row_size) =>
          finish (write_body codec junk img color_type row_size before)
      end
  end.

Definition write_png_stream (codec : oracle) (junk : Z) (img : option image_t)
  : run :=
  write_png_stream_from [] codec junk img.

(** [write_png_file(filename, img)] *)
Definition write_png_file (codec : oracle) (junk : Z) (img : option image_t)
  : run :=
  match img with
  | None => Returned FAILURE []
  | Some _ =>
      if codec 0%nat then
        match write_png_stream_from [fopen_wb] codec junk img with
        | Returned result tr => Returned result (tr ++ [fclose])
        | Undefined_behaviour => Undefined_behaviour
        end
      else Returned FAILURE [fopen_wb; perror]
  end.

(** The image handed to libpng: the argument of [png_write_png], if the call
    was made. *)
Fixpoint handed_off (tr : list event) : option png_info :=
  match tr with
  | [] => None
  | png_write_png info :: _ => Some info
  | _ :: tr' => handed_off tr'
  end.

(** ** Notions used in the statements *)

(** The closed set of the four colour models. *)
Definition supported (m : color_model) : bool :=
  match m with COLOR_TYPE_OTHER _ => false | _ => true end.

(** Bytes per pixel of a packed row. *)
Definition stride (m : color_model) : Z :=
  match m with
  | COLOR_TYPE_INDEX => 1
  | COLOR_TYPE_GRAY => 1
  | COLOR_TYPE_RGB => 3
  | COLOR_TYPE_RGBA => 4
  | COLOR_TYPE_OTHER _ => 0
  end.

(** The invariants of a typed image: positive dimensions, a grid of [height]
    rows of [width] cells, and a palette table with its count of entries, at
    most 256, for an indexed image only.  That a stored index is below the
    count plays no part in [png.c] and is left out. *)
Definition valid_image (img : image_t) : bool :=
  (0 <? img_width img) && (0 <? img_height img)
  && (length (img_map img) =? rows_of img)%nat
  && forallb (fun row => (length row =? columns_of img)%nat) (img_map img)
  && match img_color_type img with
     | COLOR_TYPE_INDEX =>
         (img_palette_num img =? Z.of_nat (length (img_palette img)))
         && (img_palette_num img <=? 256)
     | _ =>
         (img_palette_num img =? 0)
         && match img_palette img with [] => true | _ :: _ => false end
     end.

(** The alpha-forcing rule: a colour cell with its alpha replaced by 255. *)
Definition opaque (p : pixel_t) : pixel_t :=
  match p with
  | Px_c c => Px_c {| r := r c; g := g c; b := b c; a := 255 |}
  | _ => p
  end.

(** An image modulo the alpha-forcing rule: the cells of an RGB image are made
    opaque, any other image is left as it is. *)
Definition alpha_forced (img : image_t) : image_t :=
  match img_color_type img with
  | COLOR_TYPE_RGB =>
      {| img_width := img_width img;
         img_height := img_height img;
         img_color_type := img_color_type img;
         img_palette_num := img_palette_num img;
         img_palette := img_palette img;
         img_map := map (map opaque) (img_map img) |}
  | _ => img
  end.

(** Every colour cell of the grid has alpha 255. *)
Definition all_opaque (img : image_t) : Prop :=
  forall y x c, cell img y x = Some (Px_c c) -> a c = 255.

(** ** Footprints of loops

    A memory is anything with a [load] and a part [sh] that no store changes
    (the shape of an array, the data a loop only reads).  [V s a v] says that
    [v] is the value the loop is meant to leave at address [a]. *)
Section Footprint.
Variables Mem Addr Val Sh : Type.
Variable load : Mem -> Addr -> option Val.
Variable sh : Mem -> Sh.
Variable V : Sh -> Addr -> Val -> Prop.

(** Whenever [B] returns, it has kept [sh], has left every address either
    untouched or at its final value, and has brought every address of [F]
    to its final value. *)
Definition writes (B : Mem -> option Mem) (F : Addr -> Prop) : Prop :=
  forall t t', B t = Some t' ->
    sh t' = sh t /\
    (forall p, load t' p = load t p \/
               exists v, V (sh t) p v /\ load t' p = Some v) /\
    (forall p, F p -> exists v, V (sh t) p v /\ load t' p = Some v).

(** [B] returns on every memory whose fixed part is [s]. *)
Definition runs (s : Sh) (B : Mem -> option Mem) : Prop :=
  forall t, sh t = s -> exists t', B t = Some t' /\ sh t' = s.
End Footprint.

Arguments writes {Mem Addr Val Sh} load sh V B F.
Arguments runs {Mem Sh} sh s B.

(** The memory of the writing loops: the rows, addressed by row and offset. *)
Definition rows_load (t : list (list Z)) (p : nat * nat) : option Z :=
  load2 t (fst p) (snd p).

(** [packed img s (y, i) v]: [v] is the byte that the packed row [y] of [img]
    has at offset [i] (the shape [s] of the rows plays no part). *)
Definition packed (img : image_t) (s : list nat) (p : nat * nat) (v : Z)
  : Prop :=
  match img_color_type img with
  | COLOR_TYPE_INDEX => cell_i img (fst p) (snd p) = Some v
  | COLOR_TYPE_GRAY => cell_g img (fst p) (snd p) = Some v
  | COLOR_TYPE_RGB =>
      exists x c, cell_c img (fst p) x = Some c /\
        ((snd p = x * 3 + 0 /\ v = r c) \/
         (snd p = x * 3 + 1 /\ v = g c) \/
         (snd p = x * 3 + 2 /\ v = b c))%nat
  | COLOR_TYPE_RGBA =>
      exists x c, cell_c img (fst p) x = Some c /\
        ((snd p = x * 4 + 0 /\ v = r c) \/
         (snd p = x * 4 + 1 /\ v = g c) \/
         (snd p = x * 4 + 2 /\ v = b c) \/
         (snd p = x * 4 + 3 /\ v = a c))%nat
  | COLOR_TYPE_OTHER _ => False
  end.

(** The rows filled by the second [switch], without the calls around them. *)
Definition write_rows (img : image_t) (rows : list (list Z))
  : option (list (list Z)) :=
  match img_color_type img with
  | COLOR_TYPE_INDEX => write_index img rows
  | COLOR_TYPE_GRAY => write_gray img rows
  | COLOR_TYPE_RGB => write_rgb img rows
  | COLOR_TYPE_RGBA => write_rgba img rows
  | COLOR_TYPE_OTHER _ => Some rows
  end.

(** The footprint of the two nested loops over a grid of [h] by [w] pixels of
    [k] bytes. *)
Definition grid_bytes (h w k : nat) (p : nat * nat) : Prop :=
  exists y x j, (y < h /\ x < w /\ j < k)%nat /\ p = (y, (x * k + j)%nat).

(** The transported form of a palette entry. *)
Definition to_png_color (e : rgb_t) : png_color :=
  {| red := rgb_r e; green := rgb_g e; blue := rgb_b e |}.

(** A step that does not hand an image to libpng. *)
Definition quiet {A : Type} (m : io A) : Prop :=
  forall tr res tr', m tr = (res, tr') ->
    handed_off tr = None -> handed_off tr' = None.

(** The palette that goes with the rows: the copy of the table of an indexed
    image, nothing for another image. *)
Definition palette_handed (junk : Z) (img : image_t) (num : Z)
  (palette : list png_color) : Prop :=
  match img_color_type img with
  | COLOR_TYPE_INDEX =>
      num = img_palette_num img /\ 0 <= img_palette_num img /\
      for_ (Z.to_nat (img_palette_num img)) (write_palette_entry img)
           (repeat {| red := junk; green := junk; blue := junk |}
                   (Z.to_nat (img_palette_num img))) = Some palette
  | _ => num = 0 /\ palette = []
  end.

(** ** Scenarios *)

(** libpng at its best: every call succeeds. *)
Definition cooperative : oracle := fun _ => true.

(** A heap that can satisfy the allocation; fresh cells hold intensity 0. *)
Definition roomy : heap := {| heap_ok := true; heap_cell := Px_g 0 |}.

(** The indexed image of 2 by 1 pixels with a palette of red and green. *)
Definition index_2x1 : image_t :=
  {| img_width := 2; img_height := 1; img_color_type := COLOR_TYPE_INDEX;
     img_palette_num := 2;
     img_palette := [color_from_rgb 255 0 0; color_from_rgb 0 255 0];
     img_map := [[Px_i 0; Px_i 1]] |}.

(** The RGB image of one pixel, opaque and translucent. *)
Definition rgb_1x1 : image_t :=
  {| img_width := 1; img_height := 1; img_color_type := COLOR_TYPE_RGB;
     img_palette_num := 0; img_palette := [];
     img_map := [[Px_c {| r := 10; g := 20; b := 30; a := 255 |}]] |}.

Definition rgb_1x1_translucent : image_t :=
  {| img_width := 1; img_height := 1; img_color_type := COLOR_TYPE_RGB;
     img_palette_num := 0; img_palette := [];
     img_map := [[Px_c {| r := 10; g := 20; b := 30; a := 0 |}]] |}.

(** An image whose tag is none of the four. *)
Definition cmyk_1x1 : image_t :=
  {| img_width := 1; img_height := 1; img_color_type := COLOR_TYPE_OTHER 9;
     img_palette_num := 0; img_palette := [];
     img_map := [[Px_g 0]] |}.

(** The trace of a call that returned, empty otherwise. *)
Definition trace_of (x : run) : list event :=
  match x with Returned _ tr => tr | Undefined_behaviour => [] end.

(** What [write_png_stream] hands to libpng for an image when every call
    succeeds and fresh blocks hold [junk]. *)
Definition encoded_with (junk : Z) (img : image_t) : option png_info :=
  handed_off (trace_of (write_png_stream cooperative junk (Some img))).

(** The [info] with which libpng would present an encoded image again. *)
Definition info_of (num : Z) (palette : list png_color) (color_type : Z)
  (width height : Z) (rows : list (list Z)) : png_info :=
  {| info_width := width; info_height := height;
     info_color_type := color_type; info_num_palette := num;
     info_palette := palette; info_rows := rows |}.

(** The memory of the reading loops: the cells of the image being filled.
    What the loops leave alone is the state without its cells, and the shape
    of the grid. *)
Definition cells_load (st : read_state) (p : nat * nat) : option pixel_t :=
  load2 (img_map (rs_img st)) (fst p) (snd p).

Definition grid_sh (st : read_state) : read_state * list nat :=
  (with_map [] st, shape (img_map (rs_img st))).

(** [cell_from m rows y x v]: [v] is the cell that the bytes of pixel [x] of
    row [y] make under colour model [m]. *)
Definition cell_from (m : color_model) (rows : list (list Z)) (y x : nat)
  (v : pixel_t) : Prop :=
  match m with
  | COLOR_TYPE_INDEX => exists v0, load2 rows y x = Some v0 /\ v = Px_i v0
  | COLOR_TYPE_GRAY => exists v0, load2 rows y x = Some v0 /\ v = Px_g v0
  | COLOR_TYPE_RGB =>
      exists v0 v1 v2,
        load2 rows y (x * 3 + 0) = Some v0 /\
        load2 rows y (x * 3 + 1) = Some v1 /\
        load2 rows y (x * 3 + 2) = Some v2 /\
        v = Px_c {| r := v0; g := v1; b := v2; a := 255 |}
  | COLOR_TYPE_RGBA =>
      exists v0 v1 v2 v3,
        load2 rows y (x * 4 + 0) = Some v0 /\
        load2 rows y (x * 4 + 1) = Some v1 /\
        load2 rows y (x * 4 + 2) = Some v2 /\
        load2 rows y (x * 4 + 3) = Some v3 /\
        v = Px_c {| r := v0; g := v1; b := v2; a := v3 |}
  | COLOR_TYPE_OTHER _ => False
  end.

Definition unpacked (m : color_model) (s : read_state * list nat)
  (p : nat * nat) (v : pixel_t) : Prop :=
  cell_from m (info_rows (rs_info (fst s))) (fst p) (snd p) v.

(** The case of the [switch] that a libpng colour type selects. *)
Definition model_of (color_type : Z) : option color_model :=
  if color_type =? PNG_COLOR_TYPE_PALETTE then Some COLOR_TYPE_INDEX
  else if color_type =? PNG_COLOR_TYPE_GRAY then Some COLOR_TYPE_GRAY
  else if color_type =? PNG_COLOR_TYPE_RGB then Some COLOR_TYPE_RGB
  else if color_type =? PNG_COLOR_TYPE_RGB_ALPHA then Some COLOR_TYPE_RGBA
  else None.

(** The palette entries read from [src], from entry [i] on. *)
Definition read_palette_pure (src : list png_color) (i : nat)
  (pal : list rgb_t) : option (list rgb_t) :=
  do pc <- nth_error src i;
  palette_store i (color_from_rgb (red pc) (green pc) (blue pc)) pal.

(** The internal form of a transported palette entry. *)
Definition of_png_color (pc : png_color) : rgb_t :=
  color_from_rgb (red pc) (green pc) (blue pc).

(** The cells of a grid of [h] rows of [w] cells. *)
Definition grid_cells (h w : nat) (p : nat * nat) : Prop :=
  (fst p < h)%nat /\ (snd p < w)%nat.

(** The loops over the grid in the four cases of the [switch]. *)
Definition read_cells (m : color_model) (st : read_state) : option read_state :=
  match m with
  | COLOR_TYPE_INDEX =>
      for_ (height_of st) (fun y =>
        for_ (width_of st) (fun x st =>
          do v <- row_byte st y x; set_cell y x (Px_i v) st)) st
  | COLOR_TYPE_GRAY => read_gray st
  | COLOR_TYPE_RGB => read_rgb st
  | COLOR_TYPE_RGBA => read_rgba st
  | COLOR_TYPE_OTHER _ => Some st
  end.

(** The cell that the bytes of pixel [x] of row [y] make, as the loops
    compute it. *)
Definition unpack (m : color_model) (y x : nat) (st : read_state)
  : option pixel_t :=
  match m with
  | COLOR_TYPE_INDEX => do v <- row_byte st y x; Some (Px_i v)
  | COLOR_TYPE_GRAY => do v <- row_byte st y x; Some (Px_g v)
  | COLOR_TYPE_RGB =>
      do v0 <- row_byte st y (x * 3 + 0);
      do v1 <- row_byte st y (x * 3 + 1);
      do v2 <- row_byte st y (x * 3 + 2);
      Some (Px_c {| r := v0; g := v1; b := v2; a := 255 |})
  | COLOR_TYPE_RGBA =>
      do v0 <- row_byte st y (x * 4 + 0);
      do v1 <- row_byte st y (x * 4 + 1);
      do v2 <- row_byte st y (x * 4 + 2);
      do v3 <- row_byte st y (x * 4 + 3);
      Some (Px_c {| r := v0; g := v1; b := v2; a := v3 |})
  | COLOR_TYPE_OTHER _ => None
  end.

(** The filling of the image in each case of the [switch]. *)
Definition read_fill (m : color_model) : read_state -> option read_state :=
  match m with
  | COLOR_TYPE_INDEX => read_index
  | COLOR_TYPE_GRAY => read_gray
  | COLOR_TYPE_RGB => read_rgb
  | COLOR_TYPE_RGBA => read_rgba
  | COLOR_TYPE_OTHER _ => fun st => Some st
  end.

(** The count and the table of the palette of a decoded image. *)
Definition palette_read (m : color_model) (info : png_info) : Z * list rgb_t :=
  match m with
  | COLOR_TYPE_INDEX =>
      (info_num_palette info,
       map of_png_color
           (firstn (Z.to_nat (info_num_palette info)) (info_palette info)))
  | _ => (0, [])
  end.

(** The count and the table of the palette that the [switch] leaves in the
    image: what the loop over [info->palette] stores, for an indexed image
    only. *)
Definition palette_decoded (m : color_model) (info : png_info) (num : Z)
  (p : list rgb_t) : Prop :=
  match m with
  | COLOR_TYPE_INDEX =>
      num = info_num_palette info /\
      for_from 0 (Z.to_nat (info_num_palette info))
               (read_palette_pure (info_palette info)) [] = Some p
  | _ => num = 0 /\ p = []
  end.

(** Another heap: fresh cells hold a translucent colour. *)
Definition stale : heap :=
  {| heap_ok := true;
     heap_cell := Px_c {| r := 1; g := 2; b := 3; a := 4 |} |}.

(** The decoded images of the scenarios, as libpng presents them. *)
Definition index_2x1_info : png_info :=
  info_of 2 [{| red := 255; green := 0; blue := 0 |};
             {| red := 0; green := 255; blue := 0 |}]
          PNG_COLOR_TYPE_PALETTE 2 1 [[0; 1]].
Definition rgb_1x1_info : png_info :=
  info_of 0 [] PNG_COLOR_TYPE_RGB 1 1 [[10; 20; 30]].

(** A decode call with no row at all. *)
Definition no_rows_info : png_info :=
  info_of 0 [] PNG_COLOR_TYPE_GRAY 1 0 [].



(** The member of a cell that a colour model uses. *)
Definition active (m : color_model) (p : pixel_t) : bool :=
  match m, p with
  | COLOR_TYPE_INDEX, Px_i _ => true
  | COLOR_TYPE_GRAY, Px_g _ => true
  | COLOR_TYPE_RGB, Px_c _ => true
  | COLOR_TYPE_RGBA, Px_c _ => true
  | _, _ => false
  end.

(** Every cell of the grid holds the member of the colour model of the image. *)
Definition typed_cells (img : image_t) : bool :=
  forallb (forallb (active (img_color_type img))) (img_map img).

(** ** Notions used for the calls of the writing side *)

(** The oracle as seen after [n] calls have been made. *)
Definition shift (n : nat) (codec : oracle) : oracle :=
  fun k => codec (n + k)%nat.

(** A run that comes after the calls in [pre]. *)
Definition prepend (pre : list event) (x : run) : run :=
  match x with
  | Returned result tr => Returned result (pre ++ tr)
  | Undefined_behaviour => Undefined_behaviour
  end.

(** A run followed by the calls in [post]. *)
Definition followed_by (post : list event) (x : run) : run :=
  match x with
  | Returned result tr => Returned result (tr ++ post)
  | Undefined_behaviour => Undefined_behaviour
  end.

(** [m'] does from an empty trace, with its own oracle, what [m] does after
    the calls in [pre]. *)
Definition shifted {A : Type} (pre : list event) (m m' : io A) : Prop :=
  forall tr, m (pre ++ tr) = let (res, tr') := m' tr in (res, pre ++ tr').

(** A step only adds calls to the trace, and only calls that [P] allows. *)
Definition grows {A : Type} (P : event -> bool) (m : io A) : Prop :=
  forall tr res tr', m tr = (res, tr') ->
    exists new, tr' = tr ++ new /\ forallb P new = true.

Definition is_destroy (e : event) : bool :=
  match e with png_destroy_write_struct => true | _ => false end.

Definition is_palette_call (e : event) : bool :=
  match e with
  | png_malloc_palette _ => true
  | png_set_PLTE _ _ => true
  | _ => false
  end.

Definition is_stdio (e : event) : bool :=
  match e with
  | fopen_wb => true
  | perror => true
  | fclose => true
  | _ => false
  end.

(** ** Reading a file: [read_png_file] *)

(** [read_png_file(filename)]: [NULL] when the file cannot be opened,
    [read_png_stream] on the opened file otherwise.  The calls of the reading
    side are not traced; [fopen_ok] tells whether [fopen] succeeds. *)
Definition read_png_file (fopen_ok : bool) (hp : heap) (fp : read_codec)
  : outcome (option image_t) :=
  if fopen_ok then read_png_stream hp fp else Value None.

(** A stream that libpng reads without trouble and decodes to [info]. *)
Definition stream_of (info : png_info) : read_codec :=
  {| signature_ok := true; read_struct_ok := true; read_info_ok := true;
     read_png := Some info |}.

(** Scenarios for the calls of the writing side. *)

(** libpng accepts every call but the one with number [k]. *)
Definition refusing (k : nat) : oracle := fun n => negb (n =? k)%nat.

(** A gray image of 2 by 2 pixels. *)
Definition gray_2x2 : image_t :=
  {| img_width := 2; img_height := 2; img_color_type := COLOR_TYPE_GRAY;
     img_palette_num := 0; img_palette := [];
     img_map := [[Px_g 1; Px_g 2]; [Px_g 3; Px_g 4]] |}.

Definition gray_2x2_info : png_info :=
  info_of 0 [] PNG_COLOR_TYPE_GRAY 2 2 [[1; 2]; [3; 4]].

(** An RGBA image of 2 by 1 pixels. *)
Definition rgba_2x1 : image_t :=
  {| img_width := 2; img_height := 1; img_color_type := COLOR_TYPE_RGBA;
     img_palette_num := 0; img_palette := [];
     img_map := [[Px_c {| r := 1; g := 2; b := 3; a := 4 |};
                  Px_c {| r := 5; g := 6; b := 7; a := 8 |}]] |}.

Definition rgba_2x1_info : png_info :=
  info_of 0 [] PNG_COLOR_TYPE_RGB_ALPHA 2 1 [[1; 2; 3; 4; 5; 6; 7; 8]].

(** Two steps that do the same from every trace. *)
Definition agree {A : Type} (m m' : io A) : Prop := forall tr, m tr = m' tr.

(** ** Notions used for the reading side *)



(** The colour type of libpng for a colour model. *)
Definition png_color_type_of (m : color_model) : Z :=
  match m with
  | COLOR_TYPE_INDEX => PNG_COLOR_TYPE_PALETTE
  | COLOR_TYPE_GRAY => PNG_COLOR_TYPE_GRAY
  | COLOR_TYPE_RGB => PNG_COLOR_TYPE_RGB
  | COLOR_TYPE_RGBA => PNG_COLOR_TYPE_RGB_ALPHA
  | COLOR_TYPE_OTHER tag => tag
  end.

(** An [info] as [write_png_stream] hands it over: rows of exactly the stride
    of the colour type, as many as the height, and a palette with exactly the
    entries it counts, at most 256, for the palette colour type only. *)
Definition packed_info (m : color_model) (info : png_info) : Prop :=
  model_of (info_color_type info) = Some m /\
  0 < info_width info /\ 0 < info_height info /\
  shape (info_rows info)
    = repeat (Z.to_nat (info_width info) * Z.to_nat (stride m))%nat
             (Z.to_nat (info_height info)) /\
  match m with
  | COLOR_TYPE_INDEX =>
      info_num_palette info = Z.of_nat (length (info_palette info)) /\
      info_num_palette info <= 256
  | _ => info_num_palette info = 0 /\ info_palette info = []
  end.

(** Scenarios for the reading side. *)



(** Gray with alpha: a colour type that the [switch] has no case for. *)
Definition gray_alpha_info : png_info :=
  info_of 0 [] 4 1 1 [[7; 255]].

(** ** The [switch] for any allocator

    [read_png_stream] leaves every decision about the dimensions to
    [allocate_image]: it compares what the allocator returns with [NULL] and
    tests nothing else.  What the [switch] does with a given [info] is
    therefore also stated for any allocator. *)
Definition allocator : Type := Z -> Z -> color_model -> option image_t.

Definition read_case_with (alloc : allocator) (info : png_info)
  (type : color_model) (fill : read_state -> option read_state)
  : outcome (option image_t * png_info) :=
  match alloc (info_width info) (info_height info) type with
  | None => Value (None, info)
  | Some img =>
      match fill {| rs_info := info; rs_img := img |} with
      | Some st => Value (Some (rs_img st), rs_info st)
      | None => Undefined
      end
  end.

Definition decode_rows_with (alloc : allocator) (info : png_info)
  : outcome (option image_t * png_info) :=
  if info_color_type info =? PNG_COLOR_TYPE_PALETTE then
    read_case_with alloc info COLOR_TYPE_INDEX read_index
  else if info_color_type info =? PNG_COLOR_TYPE_GRAY then
    read_case_with alloc info COLOR_TYPE_GRAY read_gray
  else if info_color_type info =? PNG_COLOR_TYPE_RGB then
    read_case_with alloc info COLOR_TYPE_RGB read_rgb
  else if info_color_type info =? PNG_COLOR_TYPE_RGB_ALPHA then
    read_case_with alloc info COLOR_TYPE_RGBA read_rgba
  else Value (None, info).




(** * Properties *)

(** ** Arrays *)

Section Stores.
Context {A : Type}.
Implicit Types (l : list A).

Lemma store_length i v l l' :
  store i v l = Some l' -> length l' = length l.
Proof.
  revert i l'. induction l as [|x l IH]; intros [|i] l' H; simpl in H;
    try discriminate.
  - now inversion H.
  - destruct (store i v l) as [l1|] eqn:E; simpl in H; inversion H; subst.
    simpl. f_equal. eauto.
Qed.

Lemma store_lt i v l l' :
  store i v l = Some l' -> (i < length l)%nat.
Proof.
  revert i l'. induction l as [|x l IH]; intros [|i] l' H; simpl in H;
    try discriminate; simpl; try lia.
  destruct (store i v l) as [l1|] eqn:E; simpl in H; inversion H; subst.
  apply IH in E. lia.
Qed.

Lemma store_same i v l l' :
  store i v l = Some l' -> nth_error l' i = Some v.
Proof.
  revert i l'. induction l as [|x l IH]; intros [|i] l' H; simpl in H;
    try discriminate.
  - now inversion H.
  - destruct (store i v l) as [l1|] eqn:E; simpl in H; inversion H; subst.
    simpl. eauto.
Qed.

Lemma store_other i v l l' j :
  store i v l = Some l' -> j <> i -> nth_error l' j = nth_error l j.
Proof.
  revert i j l'. induction l as [|x l IH]; intros [|i] j l' H Hj; simpl in H;
    try discriminate.
  - inversion H; subst. destruct j; [congruence | reflexivity].
  - destruct (store i v l) as [l1|] eqn:E; simpl in H; inversion H; subst.
    destruct j; simpl; [reflexivity|]. eapply IH; eauto.
Qed.

Lemma store_total i v l :
  (i < length l)%nat -> exists l', store i v l = Some l'.
Proof.
  revert i. induction l as [|x l IH]; intros [|i] H; simpl in *; try lia.
  - eauto.
  - destruct (IH i) as [l' E]; [lia|]. rewrite E. simpl. eauto.
Qed.

End Stores.

Section Arrays.
Context {A : Type}.
Implicit Types (t : list (list A)).

Lemma store2_shape y i v t t' :
  store2 y i v t = Some t' -> shape t' = shape t.
Proof.
  unfold store2, shape. intros H.
  destruct (nth_error t y) as [row|] eqn:Ey; [|discriminate].
  destruct (store i v row) as [row'|] eqn:Er; [|discriminate].
  apply nth_error_ext. intros k. rewrite !nth_error_map.
  destruct (Nat.eq_dec k y) as [->|Hk].
  - rewrite (store_same _ _ _ _ H), Ey. simpl.
    now rewrite (store_length _ _ _ _ Er).
  - now rewrite (store_other _ _ _ _ k H Hk).
Qed.

Lemma store2_same y i v t t' :
  store2 y i v t = Some t' -> load2 t' y i = Some v.
Proof.
  unfold store2, load2. intros H.
  destruct (nth_error t y) as [row|] eqn:Ey; [|discriminate].
  destruct (store i v row) as [row'|] eqn:Er; [|discriminate].
  rewrite (store_same _ _ _ _ H). eapply store_same; eauto.
Qed.

Lemma store2_other y i v t t' y' i' :
  store2 y i v t = Some t' -> y' <> y \/ i' <> i ->
  load2 t' y' i' = load2 t y' i'.
Proof.
  unfold store2, load2. intros H Hne.
  destruct (nth_error t y) as [row|] eqn:Ey; [|discriminate].
  destruct (store i v row) as [row'|] eqn:Er; [|discriminate].
  destruct (Nat.eq_dec y' y) as [->|Hy].
  - rewrite (store_same _ _ _ _ H), Ey.
    destruct Hne as [Hne|Hne]; [congruence|].
    eapply store_other; eauto.
  - now rewrite (store_other _ _ _ _ y' H Hy).
Qed.

Lemma store2_in_range y i v t t' :
  store2 y i v t = Some t' ->
  exists n, nth_error (shape t) y = Some n /\ (i < n)%nat.
Proof.
  unfold store2, shape. intros H.
  destruct (nth_error t y) as [row|] eqn:Ey; [|discriminate].
  destruct (store i v row) as [row'|] eqn:Er; [|discriminate].
  exists (length row). rewrite nth_error_map, Ey. split; [reflexivity|].
  eapply store_lt; eauto.
Qed.

Lemma store2_total y i v t n :
  nth_error (shape t) y = Some n -> (i < n)%nat ->
  exists t', store2 y i v t = Some t'.
Proof.
  unfold store2, shape. rewrite nth_error_map. intros Hn Hi.
  destruct (nth_error t y) as [row|] eqn:Ey; [|discriminate].
  simpl in Hn. inversion Hn; subst.
  destruct (store_total i v row Hi) as [row' ->].
  apply store_total. apply nth_error_Some. congruence.
Qed.

Lemma load2_in_range t y i v :
  load2 t y i = Some v ->
  exists n, nth_error (shape t) y = Some n /\ (i < n)%nat.
Proof.
  unfold load2, shape. intros H.
  destruct (nth_error t y) as [row|] eqn:Ey; [|discriminate].
  exists (length row). rewrite nth_error_map, Ey. split; [reflexivity|].
  apply nth_error_Some. congruence.
Qed.

Lemma load2_total t y i n :
  nth_error (shape t) y = Some n -> (i < n)%nat ->
  exists v, load2 t y i = Some v.
Proof.
  unfold load2, shape. rewrite nth_error_map. intros Hn Hi.
  destruct (nth_error t y) as [row|] eqn:Ey; [|discriminate].
  simpl in Hn. inversion Hn; subst.
  destruct (nth_error row i) eqn:E; [eauto|].
  apply nth_error_None in E. lia.
Qed.

(** Two arrays of the same shape with the same cells are equal. *)
Lemma table_ext t1 t2 :
  shape t1 = shape t2 ->
  (forall y i, load2 t1 y i = load2 t2 y i) ->
  t1 = t2.
Proof.
  intros Hs Hl. apply nth_error_ext. intros y.
  assert (Hy : nth_error (shape t1) y = nth_error (shape t2) y) by now rewrite Hs.
  unfold shape in Hy. rewrite !nth_error_map in Hy.
  specialize (Hl y). unfold load2 in Hl.
  destruct (nth_error t1 y) as [r1|], (nth_error t2 y) as [r2|];
    simpl in Hy; try discriminate; [|reflexivity].
  f_equal. apply nth_error_ext. exact Hl.
Qed.
End Arrays.

(** ** Loops and footprints *)

Lemma for_from_ext {St : Type} (body body' : nat -> St -> option St) n :
  forall i s,
    (forall k s', (i <= k < i + n)%nat -> body k s' = body' k s') ->
    for_from i n body s = for_from i n body' s.
Proof.
  induction n as [|n IH]; intros i s H; simpl; [reflexivity|].
  rewrite (H i s) by lia. destruct (body' i s) as [s1|]; [|reflexivity].
  apply IH. intros k s' Hk. apply H. lia.
Qed.

Section FootprintFacts.
Variables Mem Addr Val Sh : Type.
Variable load : Mem -> Addr -> option Val.
Variable sh : Mem -> Sh.
Variable V : Sh -> Addr -> Val -> Prop.

Lemma writes_ext (B B' : Mem -> option Mem) F :
  (forall t, B t = B' t) -> writes load sh V B F -> writes load sh V B' F.
Proof.
  intros HB H t t' E. apply H. now rewrite HB.
Qed.

Lemma writes_weaken (B : Mem -> option Mem) (F F' : Addr -> Prop) :
  (forall p, F' p -> F p) -> writes load sh V B F -> writes load sh V B F'.
Proof.
  intros HF H t t' E. destruct (H t t' E) as (Hs & Hu & Hw).
  repeat split; auto.
Qed.

Lemma writes_seq (B1 B2 : Mem -> option Mem) F1 F2 :
  writes load sh V B1 F1 -> writes load sh V B2 F2 ->
  writes load sh V (fun t => do t1 <- B1 t; B2 t1) (fun p => F1 p \/ F2 p).
Proof.
  intros H1 H2 t t' E.
  destruct (B1 t) as [t1|] eqn:E1; [|discriminate].
  destruct (H1 t t1 E1) as (Hs1 & Hu1 & Hw1).
  destruct (H2 t1 t' E) as (Hs2 & Hu2 & Hw2).
  rewrite Hs1 in Hu2, Hw2.
  split; [congruence|]. split.
  - intros p. destruct (Hu2 p) as [e|Hv]; [|now right].
    rewrite e. apply Hu1.
  - intros p [Hp|Hp]; [|now apply Hw2].
    destruct (Hu2 p) as [e|Hv]; [|exact Hv].
    rewrite e. now apply Hw1.
Qed.

Lemma writes_for_from (body : nat -> Mem -> option Mem)
  (F : nat -> Addr -> Prop) n :
  forall i,
    (forall k, (i <= k < i + n)%nat -> writes load sh V (body k) (F k)) ->
    writes load sh V (for_from i n body)
      (fun p => exists k, (i <= k < i + n)%nat /\ F k p).
Proof.
  induction n as [|n IH]; intros i H t t' E; simpl in E.
  - inversion E; subst. split; [reflexivity|]. split.
    + now left.
    + intros p (k & Hk & _). lia.
  - destruct (body i t) as [t1|] eqn:E1; [|discriminate].
    destruct (H i ltac:(lia) t t1 E1) as (Hs1 & Hu1 & Hw1).
    assert (H' : forall k, (S i <= k < S i + n)%nat ->
                           writes load sh V (body k) (F k))
      by (intros k Hk; apply H; lia).
    destruct (IH (S i) H' t1 t' E) as (Hs2 & Hu2 & Hw2).
    rewrite Hs1 in Hu2, Hw2.
    split; [congruence|]. split.
    + intros p. destruct (Hu2 p) as [e|Hv]; [|now right].
      rewrite e. apply Hu1.
    + intros p (k & Hk & Hp).
      destruct (Nat.eq_dec k i) as [->|Hki].
      * destruct (Hu2 p) as [e|Hv]; [|exact Hv].
        rewrite e. now apply Hw1.
      * apply Hw2. exists k. split; [lia|assumption].
Qed.

Lemma writes_for (body : nat -> Mem -> option Mem)
  (F : nat -> Addr -> Prop) n :
  (forall k, (k < n)%nat -> writes load sh V (body k) (F k)) ->
  writes load sh V (for_ n body) (fun p => exists k, (k < n)%nat /\ F k p).
Proof.
  intros H. unfold for_.
  eapply writes_weaken; [|apply (writes_for_from body F n 0%nat)].
  - intros p (k & Hk & Hp). exists k. split; [lia|assumption].
  - intros k Hk. apply H. lia.
Qed.

Lemma runs_for_from (s : Sh) (body : nat -> Mem -> option Mem) n :
  forall i,
    (forall k, (i <= k < i + n)%nat -> runs sh s (body k)) ->
    runs sh s (for_from i n body).
Proof.
  induction n as [|n IH]; intros i H t Ht; simpl.
  - eauto.
  - destruct (H i ltac:(lia) t Ht) as (t1 & E1 & Ht1). rewrite E1.
    apply IH; [|assumption]. intros k Hk. apply H. lia.
Qed.

Lemma runs_for (s : Sh) (body : nat -> Mem -> option Mem) n :
  (forall k, (k < n)%nat -> runs sh s (body k)) ->
  runs sh s (for_ n body).
Proof.
  intros H. apply runs_for_from. intros k Hk. apply H. lia.
Qed.
End FootprintFacts.

Arguments writes_ext {Mem Addr Val Sh load sh V} B B' F.
Arguments writes_weaken {Mem Addr Val Sh load sh V} B F F'.
Arguments writes_seq {Mem Addr Val Sh load sh V} B1 B2 F1 F2.
Arguments writes_for {Mem Addr Val Sh load sh V} body F n.
Arguments runs_for {Mem Sh sh} s body n.

(** ** The writing loops *)

Lemma writes_store {X : Type} (img : image_t) (e : option X) (f : X -> Z)
  (y i : nat) :
  (forall x, e = Some x -> packed img [] (y, i) (f x)) ->
  writes rows_load shape (fun _ => packed img [])
    (fun t => do x <- e; store2 y i (f x) t) (fun p => p = (y, i)).
Proof.
  intros H t t' E. destruct e as [x|]; [|discriminate].
  split; [eapply store2_shape; eauto|]. split.
  - intros [y' i']. unfold rows_load. simpl.
    destruct (Nat.eq_dec y' y) as [->|Hy].
    + destruct (Nat.eq_dec i' i) as [->|Hi].
      * right. exists (f x). split; [now apply H|]. eapply store2_same; eauto.
      * left. eapply store2_other; eauto.
    + left. eapply store2_other; eauto.
  - intros p ->. exists (f x). split; [now apply H|].
    unfold rows_load. simpl. eapply store2_same; eauto.
Qed.

Lemma cell_c_inv img y x c :
  cell_c img y x = Some c -> cell img y x = Some (Px_c c).
Proof.
  unfold cell_c. destruct (cell img y x) as [[v|v|v]|]; simpl; congruence.
Qed.

Lemma cell_i_inv img y x v :
  cell_i img y x = Some v -> cell img y x = Some (Px_i v).
Proof.
  unfold cell_i. destruct (cell img y x) as [[w|w|w]|]; simpl; congruence.
Qed.

Lemma cell_g_inv img y x v :
  cell_g img y x = Some v -> cell img y x = Some (Px_g v).
Proof.
  unfold cell_g. destruct (cell img y x) as [[w|w|w]|]; simpl; congruence.
Qed.

Lemma write_index_writes img :
  img_color_type img = COLOR_TYPE_INDEX ->
  writes rows_load shape (fun _ => packed img []) (write_index img)
    (grid_bytes (rows_of img) (columns_of img) 1).
Proof.
  intros Hm. unfold write_index.
  eapply writes_weaken; [|apply writes_for; intros y Hy;
    apply writes_for; intros x Hx;
    apply (writes_store img (cell_i img y x) (fun v => v) y x)].
  - intros p (y & x & j & (Hy & Hx & Hj) & ->).
    exists y. split; [assumption|]. exists x. split; [assumption|].
    f_equal. lia.
  - intros v Hv. unfold packed. now rewrite Hm.
Qed.

Lemma write_gray_writes img :
  img_color_type img = COLOR_TYPE_GRAY ->
  writes rows_load shape (fun _ => packed img []) (write_gray img)
    (grid_bytes (rows_of img) (columns_of img) 1).
Proof.
  intros Hm. unfold write_gray.
  eapply writes_weaken; [|apply writes_for; intros y Hy;
    apply writes_for; intros x Hx;
    apply (writes_store img (cell_g img y x) (fun v => v) y x)].
  - intros p (y & x & j & (Hy & Hx & Hj) & ->).
    exists y. split; [assumption|]. exists x. split; [assumption|].
    f_equal. lia.
  - intros v Hv. unfold packed. now rewrite Hm.
Qed.

Lemma write_rgb_writes img :
  img_color_type img = COLOR_TYPE_RGB ->
  writes rows_load shape (fun _ => packed img []) (write_rgb img)
    (grid_bytes (rows_of img) (columns_of img) 3).
Proof.
  intros Hm. unfold write_rgb.
  eapply writes_weaken; [|apply writes_for; intros y Hy;
    apply writes_for; intros x Hx;
    eapply writes_ext;
    [|apply writes_seq;
       [apply (writes_store img (cell_c img y x) r y (x * 3 + 0))
       |apply writes_seq;
         [apply (writes_store img (cell_c img y x) g y (x * 3 + 1))
         |apply (writes_store img (cell_c img y x) b y (x * 3 + 2))]]]].
  - intros p (y & x & j & (Hy & Hx & Hj) & ->).
    exists y. split; [assumption|]. exists x. split; [assumption|].
    destruct j as [|[|[|j]]]; [auto | auto | auto | lia].
  - intros t. simpl. destruct (cell_c img y x); reflexivity.
  - intros c Hc. unfold packed. rewrite Hm. exists x, c. simpl. auto 10.
  - intros c Hc. unfold packed. rewrite Hm. exists x, c. simpl. auto 10.
  - intros c Hc. unfold packed. rewrite Hm. exists x, c. simpl. auto 10.
Qed.

Lemma write_rgba_writes img :
  img_color_type img = COLOR_TYPE_RGBA ->
  writes rows_load shape (fun _ => packed img []) (write_rgba img)
    (grid_bytes (rows_of img) (columns_of img) 4).
Proof.
  intros Hm. unfold write_rgba.
  eapply writes_weaken; [|apply writes_for; intros y Hy;
    apply writes_for; intros x Hx;
    eapply writes_ext;
    [|apply writes_seq;
       [apply (writes_store img (cell_c img y x) r y (x * 4 + 0))
       |apply writes_seq;
         [apply (writes_store img (cell_c img y x) g y (x * 4 + 1))
         |apply writes_seq;
           [apply (writes_store img (cell_c img y x) b y (x * 4 + 2))
           |apply (writes_store img (cell_c img y x) a y (x * 4 + 3))]]]]].
  - intros p (y & x & j & (Hy & Hx & Hj) & ->).
    exists y. split; [assumption|]. exists x. split; [assumption|].
    destruct j as [|[|[|[|j]]]]; [auto | auto | auto | auto 10 | lia].
  - intros t. simpl. destruct (cell_c img y x); reflexivity.
  - intros c Hc. unfold packed. rewrite Hm. exists x, c. simpl. auto 10.
  - intros c Hc. unfold packed. rewrite Hm. exists x, c. simpl. auto 10.
  - intros c Hc. unfold packed. rewrite Hm. exists x, c. simpl. auto 10.
  - intros c Hc. unfold packed. rewrite Hm. exists x, c. simpl. auto 10.
Qed.

Lemma write_rows_writes img :
  writes rows_load shape (fun _ => packed img []) (write_rows img)
    (grid_bytes (rows_of img) (columns_of img)
                (Z.to_nat (stride (img_color_type img)))).
Proof.
  unfold write_rows. destruct (img_color_type img) eqn:Hm; simpl.
  - now apply write_index_writes.
  - now apply write_gray_writes.
  - now apply write_rgb_writes.
  - now apply write_rgba_writes.
  - intros t t' E. inversion E; subst. split; [reflexivity|]. split.
    + now left.
    + intros p (y & x & j & (_ & _ & Hj) & _). lia.
Qed.

(** What the filled rows hold: every byte of the grid is the packed byte. *)
Lemma write_rows_sound img rows rows' :
  write_rows img rows = Some rows' ->
  shape rows' = shape rows /\
  forall y x j,
    (y < rows_of img)%nat -> (x < columns_of img)%nat ->
    (j < Z.to_nat (stride (img_color_type img)))%nat ->
    exists v,
      packed img [] (y, (x * Z.to_nat (stride (img_color_type img)) + j)%nat) v /\
      load2 rows' y (x * Z.to_nat (stride (img_color_type img)) + j) = Some v.
Proof.
  intros E. destruct (write_rows_writes img rows rows' E) as (Hs & _ & Hw).
  split; [assumption|]. intros y x j Hy Hx Hj.
  apply (Hw (y, (x * Z.to_nat (stride (img_color_type img)) + j)%nat)).
  exists y, x, j. auto.
Qed.

(** ** The palette copied for [png_set_PLTE] *)

Lemma write_palette_writes img :
  writes (@nth_error png_color) (@length png_color)
    (fun _ i v => exists e, nth_error (img_palette img) i = Some e /\
                            v = to_png_color e)
    (for_ (Z.to_nat (img_palette_num img)) (write_palette_entry img))
    (fun i => (i < Z.to_nat (img_palette_num img))%nat).
Proof.
  eapply writes_weaken; [|apply writes_for with (F := fun k i => i = k)].
  - intros i Hi. exists i. auto.
  - intros k _ t t' E. unfold write_palette_entry in E.
    destruct (nth_error (img_palette img) k) as [e|] eqn:Ee; [|discriminate].
    split; [eapply store_length; eauto|]. split.
    + intros i. destruct (Nat.eq_dec i k) as [->|Hi].
      * right. eexists. split; [exists e; split; [eassumption|reflexivity]|].
        eapply store_same; eauto.
      * left. eapply store_other; eauto.
    + intros i ->. eexists. split; [exists e; split; [eassumption|reflexivity]|].
      eapply store_same; eauto.
Qed.

Lemma write_palette_sound img (junk : png_color) palette :
  for_ (Z.to_nat (img_palette_num img)) (write_palette_entry img)
       (repeat junk (Z.to_nat (img_palette_num img))) = Some palette ->
  (Z.to_nat (img_palette_num img) <= length (img_palette img))%nat /\
  palette = map to_png_color
              (firstn (Z.to_nat (img_palette_num img)) (img_palette img)).
Proof.
  intros E. destruct (write_palette_writes img _ _ E) as (Hs & _ & Hw).
  rewrite repeat_length in Hs.
  set (n := Z.to_nat (img_palette_num img)) in *.
  assert (Hn : (n <= length (img_palette img))%nat).
  { destruct n as [|n]; [lia|].
    destruct (Hw n ltac:(lia)) as (v & (e & He & _) & _).
    apply nth_error_Some. rewrite He. discriminate. }
  split; [assumption|].
  apply nth_error_ext. intros i. rewrite nth_error_map.
  destruct (Nat.lt_ge_cases i n) as [Hi|Hi].
  - destruct (Hw i Hi) as (v & (e & He & ->) & Hv).
    rewrite Hv, nth_error_firstn.
    destruct (Nat.ltb_spec i n); [|lia]. now rewrite He.
  - replace (nth_error palette i) with (@None png_color)
      by (symmetry; apply nth_error_None; lia).
    rewrite nth_error_firstn. destruct (Nat.ltb_spec i n); [lia|reflexivity].
Qed.

(** ** The calls of [write_png_stream] *)

Lemma handed_off_app tr e :
  handed_off (tr ++ [e]) =
  match handed_off tr with Some info => Some info | None => handed_off [e] end.
Proof.
  induction tr as [|e' tr IH]; [reflexivity|].
  destruct e'; simpl; auto.
Qed.

Lemma bind_Next {A B : Type} (m : io A) (k : A -> io B) tr v tr' :
  bind m k tr = (Next v, tr') ->
  exists x tr1, m tr = (Next x, tr1) /\ k x tr1 = (Next v, tr').
Proof.
  unfold bind. destruct (m tr) as [[x| |] tr1]; try discriminate. eauto.
Qed.

Lemma local_Next {A : Type} (m : option A) tr v tr' :
  local m tr = (Next v, tr') -> m = Some v /\ tr' = tr.
Proof.
  unfold local. destruct m; intros H; inversion H; auto.
Qed.

Lemma png_malloc_Next {A : Type} codec e size (junk : A) tr v tr' :
  png_malloc codec e size junk tr = (Next v, tr') ->
  0 <= size /\ v = repeat junk (Z.to_nat size) /\ tr' = tr ++ [e].
Proof.
  unfold png_malloc. destruct (size <? 0) eqn:Hs; simpl; [discriminate|].
  destruct (codec (length tr)); simpl; intros H; inversion H.
  apply Z.ltb_ge in Hs. auto.
Qed.

Lemma quiet_ret {A : Type} (v : A) : quiet (ret v).
Proof. intros tr res tr' H. inversion H; subst. auto. Qed.

Lemma quiet_bind {A B : Type} (m : io A) (k : A -> io B) :
  quiet m -> (forall x, quiet (k x)) -> quiet (bind m k).
Proof.
  intros Hm Hk tr res tr' H Hq. unfold bind in H.
  destruct (m tr) as [[x| |] tr1] eqn:E.
  - eapply Hk; eauto.
  - inversion H; subst. eauto.
  - inversion H; subst. eauto.
Qed.

Lemma quiet_emit e : handed_off [e] = None -> quiet (emit e).
Proof.
  intros He tr res tr' H Hq. inversion H; subst.
  now rewrite handed_off_app, Hq.
Qed.

Lemma quiet_call codec e : handed_off [e] = None -> quiet (call codec e).
Proof.
  intros He tr res tr' H Hq. unfold call in H.
  destruct (codec (length tr)); inversion H; subst;
    now rewrite handed_off_app, Hq.
Qed.

Lemma quiet_local {A : Type} (m : option A) : quiet (local m).
Proof.
  intros tr res tr' H Hq. unfold local in H.
  destruct m; inversion H; subst; auto.
Qed.

Lemma quiet_png_malloc {A : Type} codec e size (junk : A) :
  handed_off [e] = None -> quiet (png_malloc codec e size junk).
Proof.
  intros He tr res tr' H Hq. unfold png_malloc in H.
  destruct ((size <? 0) || negb (codec (length tr))); inversion H; subst;
    now rewrite handed_off_app, Hq.
Qed.

Lemma quiet_alloc_rows codec junk row_size n :
  quiet (alloc_rows codec junk row_size n).
Proof.
  induction n as [|n IH]; simpl.
  - apply quiet_ret.
  - apply quiet_bind; [now apply quiet_png_malloc|]. intros row.
    apply quiet_bind; [assumption|]. intros rest. apply quiet_ret.
Qed.

Lemma quiet_write_pixels codec junk img rows :
  quiet (write_pixels codec junk img rows).
Proof.
  unfold write_pixels.
  destruct (img_color_type img);
    repeat first
      [ apply quiet_ret | apply quiet_local
      | apply quiet_emit; reflexivity | apply quiet_call; reflexivity
      | apply quiet_png_malloc; reflexivity
      | apply quiet_bind; [|intros ?] ].
Qed.

Lemma quiet_write_setup codec junk img color_type row_size :
  quiet (write_setup codec junk img color_type row_size).
Proof.
  unfold write_setup.
  repeat first
    [ apply quiet_alloc_rows | apply quiet_write_pixels
    | apply quiet_emit; reflexivity | apply quiet_call; reflexivity
    | apply quiet_bind; [|intros ?] ].
  match goal with x : (_ * _ * _)%type |- _ => destruct x as [[? ?] ?] end.
  apply quiet_ret.
Qed.

Lemma alloc_rows_Next codec junk row_size n :
  forall tr rows tr',
    alloc_rows codec junk row_size n tr = (Next rows, tr') ->
    rows = repeat (repeat junk (Z.to_nat row_size)) n /\
    (n <> 0%nat -> 0 <= row_size).
Proof.
  induction n as [|n IH]; intros tr rows tr' H; simpl in H.
  - inversion H; subst. split; [reflexivity|congruence].
  - apply bind_Next in H. destruct H as (row & tr1 & Hrow & H).
    apply bind_Next in H. destruct H as (rest & tr2 & Hrest & H).
    inversion H; subst.
    apply png_malloc_Next in Hrow. destruct Hrow as (Hsz & -> & _).
    apply IH in Hrest. destruct Hrest as (-> & _). auto.
Qed.

Lemma write_pixels_Next codec junk img rows0 tr num palette rows tr' :
  write_pixels codec junk img rows0 tr = (Next (num, palette, rows), tr') ->
  write_rows img rows0 = Some rows /\ palette_handed junk img num palette.
Proof.
  unfold write_pixels, write_rows, palette_handed.
  destruct (img_color_type img); intros H.
  - apply bind_Next in H. destruct H as (p0 & tr1 & Hp0 & H).
    apply bind_Next in H. destruct H as (p1 & tr2 & Hp1 & H).
    apply bind_Next in H. destruct H as (u1 & tr3 & _ & H).
    apply bind_Next in H. destruct H as (u2 & tr4 & _ & H).
    apply bind_Next in H. destruct H as (rows1 & tr5 & Hrows & H).
    inversion H; subst.
    apply png_malloc_Next in Hp0. destruct Hp0 as (Hn & -> & _).
    apply local_Next in Hp1. destruct Hp1 as (Hp1 & _).
    apply local_Next in Hrows. destruct Hrows as (Hrows & _). auto.
  - apply bind_Next in H. destruct H as (rows1 & tr1 & Hrows & H).
    inversion H; subst. apply local_Next in Hrows. now destruct Hrows.
  - apply bind_Next in H. destruct H as (rows1 & tr1 & Hrows & H).
    inversion H; subst. apply local_Next in Hrows. now destruct Hrows.
  - apply bind_Next in H. destruct H as (rows1 & tr1 & Hrows & H).
    inversion H; subst. apply local_Next in Hrows. now destruct Hrows.
  - inversion H; subst. auto.
Qed.

Lemma write_setup_Next codec junk img color_type row_size tr info tr' :
  write_setup codec junk img color_type row_size tr = (Next info, tr') ->
  exists num palette rows,
    info = {| info_width := img_width img;
              info_height := img_height img;
              info_color_type := color_type;
              info_num_palette := num;
              info_palette := palette;
              info_rows := rows |} /\
    write_rows img (repeat (repeat junk (Z.to_nat row_size)) (rows_of img))
      = Some rows /\
    (rows_of img <> 0%nat -> 0 <= row_size) /\
    palette_handed junk img num palette.
Proof.
  unfold write_setup. intros H.
  do 6 (apply bind_Next in H; destruct H as (? & ? & _ & H)).
  apply bind_Next in H. destruct H as (rows0 & tr1 & Hrows0 & H).
  apply bind_Next in H. destruct H as ([[num palette] rows] & tr2 & Hpx & H).
  inversion H; subst.
  apply alloc_rows_Next in Hrows0. destruct Hrows0 as (-> & Hsz).
  apply write_pixels_Next in Hpx. destruct Hpx as (Hrows & Hpal).
  exists num, palette, rows. auto.
Qed.

(** A successful call has handed exactly one image to libpng, set up as
    [write_setup] describes. *)
Lemma write_png_stream_success codec junk img tr :
  write_png_stream codec junk (Some img) = Returned SUCCESS tr ->
  exists color_type row_size num palette rows,
    row_layout img = Some (color_type, row_size) /\
    handed_off tr = Some {| info_width := img_width img;
                            info_height := img_height img;
                            info_color_type := color_type;
                            info_num_palette := num;
                            info_palette := palette;
                            info_rows := rows |} /\
    write_rows img (repeat (repeat junk (Z.to_nat row_size)) (rows_of img))
      = Some rows /\
    (rows_of img <> 0%nat -> 0 <= row_size) /\
    palette_handed junk img num palette.
Proof.
  unfold write_png_stream, write_png_stream_from.
  destruct (row_layout img) as [[color_type row_size]|]; [|discriminate].
  unfold write_body, finish. intros H.
  destruct (bind _ _ []) as [[u| |] tr0] eqn:E; try discriminate.
  inversion H; subst. clear H.
  apply bind_Next in E. destruct E as (info & tr1 & Hset & Hcall).
  pose proof (quiet_write_setup _ _ _ _ _ _ _ _ Hset eq_refl) as Hq.
  apply write_setup_Next in Hset.
  destruct Hset as (num & palette & rows & -> & Hrows & Hsz & Hpal).
  exists color_type, row_size, num, palette, rows.
  split; [reflexivity|]. split; [|auto].
  unfold call in Hcall. destruct (codec (length tr1)); inversion Hcall; subst.
  now rewrite !handed_off_app, Hq.
Qed.

(** ** Row sizes *)

Lemma int_of_exact z : 0 <= z -> z <= int_of z -> int_of z = z.
Proof.
  unfold int_of. intros H0 Hle.
  assert (Hb : 0 <= (z + 2 ^ 31) mod 2 ^ 32 < 2 ^ 32)
    by (apply Z.mod_pos_bound; lia).
  rewrite Z.mod_small; lia.
Qed.

Lemma int_of_small z : 0 <= z < 2 ^ 31 -> int_of z = z.
Proof.
  unfold int_of. intros H. rewrite Z.mod_small; lia.
Qed.

Lemma row_layout_stride img color_type row_size :
  row_layout img = Some (color_type, row_size) ->
  row_size = int_of (img_width img * stride (img_color_type img)) /\
  0 < stride (img_color_type img).
Proof.
  unfold row_layout, stride.
  destruct (img_color_type img); intros H; try discriminate;
    injection H as _ <-;
    (split; [apply f_equal; destruct (img_width img); lia | lia]).
Qed.

Lemma shape_repeat {A : Type} (row : list A) n :
  shape (repeat row n) = repeat (length row) n.
Proof.
  unfold shape. induction n; simpl; congruence.
Qed.

Lemma shape_In {A : Type} (t : list (list A)) n h :
  shape t = repeat n h ->
  length t = h /\ forall row, In row t -> length row = n.
Proof.
  unfold shape. intros H. split.
  - rewrite <- (length_map (@length A) t), H. apply repeat_length.
  - intros row Hin. apply (repeat_spec h n).
    rewrite <- H. now apply in_map.
Qed.

(** When the rows were filled, they were as wide as the image needs: the
    conversion to [int] has not changed [row_size]. *)
Lemma write_rows_fit (junk : Z) img color_type row_size rows :
  0 <= img_width img ->
  row_layout img = Some (color_type, row_size) ->
  (rows_of img <> 0%nat -> 0 <= row_size) ->
  write_rows img (repeat (repeat junk (Z.to_nat row_size)) (rows_of img))
    = Some rows ->
  rows_of img <> 0%nat ->
  Z.of_nat (Z.to_nat row_size) = img_width img * stride (img_color_type img).
Proof.
  intros Hw Hlay Hsz Hrows Hh. specialize (Hsz Hh).
  destruct (row_layout_stride _ _ _ Hlay) as (-> & Hk).
  rewrite Z2Nat.id by assumption.
  destruct (Z.eq_dec (img_width img) 0) as [H0|H0].
  - rewrite H0. reflexivity.
  - apply int_of_exact; [lia|].
    destruct (write_rows_sound _ _ _ Hrows) as (Hs & Hv).
    destruct (Hv 0%nat (columns_of img - 1)%nat
                (Z.to_nat (stride (img_color_type img)) - 1)%nat)
      as (v & _ & Hload); unfold columns_of; try lia.
    apply load2_in_range in Hload. destruct Hload as (n & Hn & Hlt).
    rewrite Hs, shape_repeat, repeat_length in Hn.
    rewrite nth_error_repeat in Hn by lia. inversion Hn; subst n.
    unfold columns_of in Hlt.
    set (k := stride (img_color_type img)) in *.
    assert (Hm : (Z.to_nat (img_width img) * Z.to_nat k
                  <= Z.to_nat (int_of (img_width img * k)))%nat) by nia.
    apply Nat2Z.inj_le in Hm.
    rewrite Nat2Z.inj_mul, !Z2Nat.id in Hm; lia.
Qed.

(** ** What each colour model leaves in the rows *)

Lemma write_rows_index img rows rows' :
  img_color_type img = COLOR_TYPE_INDEX ->
  write_rows img rows = Some rows' ->
  forall y x, (y < rows_of img)%nat -> (x < columns_of img)%nat ->
    exists v, cell img y x = Some (Px_i v) /\ load2 rows' y x = Some v.
Proof.
  intros Hm E y x Hy Hx.
  destruct (write_rows_sound _ _ _ E) as (_ & Hv).
  rewrite Hm in Hv. change (Z.to_nat (stride COLOR_TYPE_INDEX)) with 1%nat in Hv.
  destruct (Hv y x 0%nat Hy Hx ltac:(lia)) as (v & Hp & Hl).
  unfold packed in Hp. rewrite Hm in Hp. simpl in Hp.
  replace (x * 1 + 0)%nat with x in * by lia.
  exists v. split; [now apply cell_i_inv|assumption].
Qed.

Lemma write_rows_gray img rows rows' :
  img_color_type img = COLOR_TYPE_GRAY ->
  write_rows img rows = Some rows' ->
  forall y x, (y < rows_of img)%nat -> (x < columns_of img)%nat ->
    exists v, cell img y x = Some (Px_g v) /\ load2 rows' y x = Some v.
Proof.
  intros Hm E y x Hy Hx.
  destruct (write_rows_sound _ _ _ E) as (_ & Hv).
  rewrite Hm in Hv. change (Z.to_nat (stride COLOR_TYPE_GRAY)) with 1%nat in Hv.
  destruct (Hv y x 0%nat Hy Hx ltac:(lia)) as (v & Hp & Hl).
  unfold packed in Hp. rewrite Hm in Hp. simpl in Hp.
  replace (x * 1 + 0)%nat with x in * by lia.
  exists v. split; [now apply cell_g_inv|assumption].
Qed.

Lemma write_rows_rgb img rows rows' :
  img_color_type img = COLOR_TYPE_RGB ->
  write_rows img rows = Some rows' ->
  forall y x, (y < rows_of img)%nat -> (x < columns_of img)%nat ->
    exists c, cell img y x = Some (Px_c c) /\
      load2 rows' y (x * 3 + 0) = Some (r c) /\
      load2 rows' y (x * 3 + 1) = Some (g c) /\
      load2 rows' y (x * 3 + 2) = Some (b c).
Proof.
  intros Hm E y x Hy Hx.
  destruct (write_rows_sound _ _ _ E) as (_ & Hv).
  rewrite Hm in Hv. change (Z.to_nat (stride COLOR_TYPE_RGB)) with 3%nat in Hv.
  destruct (Hv y x 0%nat Hy Hx ltac:(lia)) as (v0 & Hp0 & Hl0).
  unfold packed in Hp0; rewrite Hm in Hp0; destruct Hp0 as (x0 & c0 & Hc0 & H0).
  destruct (Hv y x 1%nat Hy Hx ltac:(lia)) as (v1 & Hp1 & Hl1).
  unfold packed in Hp1; rewrite Hm in Hp1; destruct Hp1 as (x1 & c1 & Hc1 & H1).
  destruct (Hv y x 2%nat Hy Hx ltac:(lia)) as (v2 & Hp2 & Hl2).
  unfold packed in Hp2; rewrite Hm in Hp2; destruct Hp2 as (x2 & c2 & Hc2 & H2).
  simpl fst in *. simpl snd in *.
  assert (x0 = x) by lia. assert (x1 = x) by lia. assert (x2 = x) by lia.
  subst x0 x1 x2. rewrite Hc0 in Hc1, Hc2.
  inversion Hc1; inversion Hc2; subst c1 c2.
  exists c0. split; [now apply cell_c_inv|].
  repeat split.
  - rewrite Hl0. f_equal. destruct H0 as [[_ ->]|[[? _]|[? _]]]; [reflexivity|lia|lia].
  - rewrite Hl1. f_equal. destruct H1 as [[? _]|[[_ ->]|[? _]]]; [lia|reflexivity|lia].
  - rewrite Hl2. f_equal. destruct H2 as [[? _]|[[? _]|[_ ->]]]; [lia|lia|reflexivity].
Qed.

Lemma write_rows_rgba img rows rows' :
  img_color_type img = COLOR_TYPE_RGBA ->
  write_rows img rows = Some rows' ->
  forall y x, (y < rows_of img)%nat -> (x < columns_of img)%nat ->
    exists c, cell img y x = Some (Px_c c) /\
      load2 rows' y (x * 4 + 0) = Some (r c) /\
      load2 rows' y (x * 4 + 1) = Some (g c) /\
      load2 rows' y (x * 4 + 2) = Some (b c) /\
      load2 rows' y (x * 4 + 3) = Some (a c).
Proof.
  intros Hm E y x Hy Hx.
  destruct (write_rows_sound _ _ _ E) as (_ & Hv).
  rewrite Hm in Hv. change (Z.to_nat (stride COLOR_TYPE_RGBA)) with 4%nat in Hv.
  destruct (Hv y x 0%nat Hy Hx ltac:(lia)) as (v0 & Hp0 & Hl0).
  unfold packed in Hp0; rewrite Hm in Hp0; destruct Hp0 as (x0 & c0 & Hc0 & H0).
  destruct (Hv y x 1%nat Hy Hx ltac:(lia)) as (v1 & Hp1 & Hl1).
  unfold packed in Hp1; rewrite Hm in Hp1; destruct Hp1 as (x1 & c1 & Hc1 & H1).
  destruct (Hv y x 2%nat Hy Hx ltac:(lia)) as (v2 & Hp2 & Hl2).
  unfold packed in Hp2; rewrite Hm in Hp2; destruct Hp2 as (x2 & c2 & Hc2 & H2).
  destruct (Hv y x 3%nat Hy Hx ltac:(lia)) as (v3 & Hp3 & Hl3).
  unfold packed in Hp3; rewrite Hm in Hp3; destruct Hp3 as (x3 & c3 & Hc3 & H3).
  simpl fst in *. simpl snd in *.
  assert (x0 = x) by lia. assert (x1 = x) by lia.
  assert (x2 = x) by lia. assert (x3 = x) by lia.
  subst x0 x1 x2 x3. rewrite Hc0 in Hc1, Hc2, Hc3.
  inversion Hc1; inversion Hc2; inversion Hc3; subst c1 c2 c3.
  exists c0. split; [now apply cell_c_inv|].
  repeat split.
  - rewrite Hl0. f_equal.
    destruct H0 as [[_ ->]|[[? _]|[[? _]|[? _]]]]; [reflexivity|lia|lia|lia].
  - rewrite Hl1. f_equal.
    destruct H1 as [[? _]|[[_ ->]|[[? _]|[? _]]]]; [lia|reflexivity|lia|lia].
  - rewrite Hl2. f_equal.
    destruct H2 as [[? _]|[[? _]|[[_ ->]|[? _]]]]; [lia|lia|reflexivity|lia].
  - rewrite Hl3. f_equal.
    destruct H3 as [[? _]|[[? _]|[[? _]|[_ ->]]]]; [lia|lia|lia|reflexivity].
Qed.

(** The rows handed to libpng by a successful call: [height] rows, each of
    [width * stride] bytes. *)
Lemma handed_rows_shape codec junk img tr info :
  0 <= img_width img ->
  write_png_stream codec junk (Some img) = Returned SUCCESS tr ->
  handed_off tr = Some info ->
  shape (info_rows info) =
  repeat (Z.to_nat (img_width img * stride (img_color_type img))) (rows_of img).
Proof.
  intros Hw Hrun Hinfo.
  destruct (write_png_stream_success _ _ _ _ Hrun)
    as (ct & rs & num & pal & rows & Hlay & Hoff & Hrows & Hsz & Hpal).
  rewrite Hoff in Hinfo. inversion Hinfo; subst info. simpl.
  destruct (write_rows_sound _ _ _ Hrows) as (-> & _).
  rewrite shape_repeat, repeat_length.
  destruct (Nat.eq_dec (rows_of img) 0) as [->|Hh]; [reflexivity|].
  f_equal. rewrite <- (write_rows_fit junk img ct rs rows) by assumption.
  now rewrite Nat2Z.id.
Qed.

(** ** Claims about writing *)



(** C4 (RGB rows).  Whenever [write_png_stream] returns [SUCCESS] for an RGB
    image, the row [y] handed to libpng holds, for every pixel [x], the bytes
    [r], [g], [b] of the cell at offsets [x*3], [x*3+1], [x*3+2]; a row is
    exactly [3 * width] bytes long, so no alpha byte is written. *)
Theorem encode_rgb_bytes codec junk img tr :
  img_color_type img = COLOR_TYPE_RGB ->
  0 <= img_width img ->
  write_png_stream codec junk (Some img) = Returned SUCCESS tr ->
  exists info,
    handed_off tr = Some info /\
    (forall row, In row (info_rows info) ->
       Z.of_nat (length row) = 3 * img_width img) /\
    forall y x, (y < rows_of img)%nat -> (x < columns_of img)%nat ->
      exists c, cell img y x = Some (Px_c c) /\
        load2 (info_rows info) y (x * 3 + 0) = Some (r c) /\
        load2 (info_rows info) y (x * 3 + 1) = Some (g c) /\
        load2 (info_rows info) y (x * 3 + 2) = Some (b c).
Proof.
  intros Hm Hw Hrun.
  destruct (write_png_stream_success _ _ _ _ Hrun)
    as (ct & rs & num & pal & rows & Hlay & Hoff & Hrows & Hsz & Hpal).
  eexists. split; [exact Hoff|]. split.
  - pose proof (handed_rows_shape _ _ _ _ _ Hw Hrun Hoff) as Hs.
    destruct (shape_In _ _ _ Hs) as (_ & Hrow).
    intros row Hin. rewrite (Hrow row Hin), Hm. simpl stride.
    rewrite Z2Nat.id; lia.
  - simpl. eapply write_rows_rgb; eauto.
Qed.

Lemma encode_rgb_bytes_witness :
  exists info,
    handed_off (trace_of (write_png_stream cooperative 7 (Some rgb_1x1)))
      = Some info /\
    (forall row, In row (info_rows info) ->
       Z.of_nat (length row) = 3 * img_width rgb_1x1) /\
    forall y x, (y < rows_of rgb_1x1)%nat -> (x < columns_of rgb_1x1)%nat ->
      exists c, cell rgb_1x1 y x = Some (Px_c c) /\
        load2 (info_rows info) y (x * 3 + 0) = Some (r c) /\
        load2 (info_rows info) y (x * 3 + 1) = Some (g c) /\
        load2 (info_rows info) y (x * 3 + 2) = Some (b c).
Proof.
  apply (encode_rgb_bytes cooperative 7 rgb_1x1);
    [reflexivity | vm_compute; discriminate | reflexivity].
Defined.

(** C5 (palette and indices).  Whenever [write_png_stream] returns [SUCCESS]
    for an indexed image whose palette table holds at most 256 entries, the
    palette handed to libpng is the first [palette_num] entries of the table,
    each converted to a [png_color], in order, with [palette_num <= 256]; and
    the byte at offset [x] of row [y] is the index stored in the cell. *)
Theorem encode_index_palette codec junk img tr :
  img_color_type img = COLOR_TYPE_INDEX ->
  (length (img_palette img) <= 256)%nat ->
  write_png_stream codec junk (Some img) = Returned SUCCESS tr ->
  exists info,
    handed_off tr = Some info /\
    0 <= img_palette_num img <= 256 /\
    info_num_palette info = img_palette_num img /\
    info_palette info =
      map to_png_color
        (firstn (Z.to_nat (img_palette_num img)) (img_palette img)) /\
    length (info_palette info) = Z.to_nat (img_palette_num img) /\
    forall y x, (y < rows_of img)%nat -> (x < columns_of img)%nat ->
      exists v, cell img y x = Some (Px_i v) /\
        load2 (info_rows info) y x = Some v.
Proof.
  intros Hm Hcap Hrun.
  destruct (write_png_stream_success _ _ _ _ Hrun)
    as (ct & rs & num & pal & rows & Hlay & Hoff & Hrows & Hsz & Hpal).
  unfold palette_handed in Hpal. rewrite Hm in Hpal.
  destruct Hpal as (-> & Hn & Hpal).
  apply write_palette_sound in Hpal. destruct Hpal as (Hle & ->).
  eexists. split; [exact Hoff|]. simpl.
  split; [lia|]. split; [reflexivity|]. split; [reflexivity|]. split.
  - rewrite length_map, length_firstn. lia.
  - eapply write_rows_index; eauto.
Qed.

Lemma encode_index_palette_witness :
  exists info,
    handed_off (trace_of (write_png_stream cooperative 7 (Some index_2x1)))
      = Some info /\
    0 <= img_palette_num index_2x1 <= 256 /\
    info_num_palette info = img_palette_num index_2x1 /\
    info_palette info =
      map to_png_color
        (firstn (Z.to_nat (img_palette_num index_2x1)) (img_palette index_2x1)) /\
    length (info_palette info) = Z.to_nat (img_palette_num index_2x1) /\
    forall y x, (y < rows_of index_2x1)%nat -> (x < columns_of index_2x1)%nat ->
      exists v, cell index_2x1 y x = Some (Px_i v) /\
        load2 (info_rows info) y x = Some v.
Proof.
  apply (encode_index_palette cooperative 7 index_2x1);
    [reflexivity | simpl; lia | reflexivity].
Defined.

(** C6 (unsupported colour model).  For an image whose tag is none of the
    four, [write_png_stream] returns [FAILURE] from the [default] branch of
    its first [switch]: no call has been made, so no row was allocated and
    nothing was handed to libpng. *)
Theorem encode_unsupported_model codec junk img tag :
  img_color_type img = COLOR_TYPE_OTHER tag ->
  write_png_stream codec junk (Some img) = Returned FAILURE [] /\
  handed_off (trace_of (write_png_stream codec junk (Some img))) = None.
Proof.
  intros Hm. unfold write_png_stream, write_png_stream_from, row_layout.
  rewrite Hm. split; reflexivity.
Qed.

Lemma encode_unsupported_model_witness :
  write_png_stream cooperative 7 (Some cmyk_1x1) = Returned FAILURE [] /\
  handed_off (trace_of (write_png_stream cooperative 7 (Some cmyk_1x1))) = None.
Proof.
  apply (encode_unsupported_model cooperative 7 cmyk_1x1 9). reflexivity.
Defined.

(** C10 (null image).  For a null image both [write_png_stream] and
    [write_png_file] return [FAILURE] at once: the trace is empty, so no file
    was opened, no row allocated and nothing written. *)
Theorem encode_null_image codec junk :
  write_png_stream codec junk None = Returned FAILURE [] /\
  write_png_file codec junk None = Returned FAILURE [].
Proof.
  split; reflexivity.
Qed.

(** ** The reading loops *)

Lemma read_cells_unfold m st :
  supported m = true ->
  read_cells m st =
  for_ (height_of st) (fun y =>
    for_ (width_of st) (fun x st =>
      do v <- unpack m y x st; set_cell y x v st)) st.
Proof.
  intros Hm. destruct m; simpl; unfold read_gray, read_rgb, read_rgba, for_;
    try (apply for_from_ext; intros y s1 _; apply for_from_ext; intros x s2 _;
         simpl;
         repeat match goal with
                | |- context [row_byte ?s ?a ?b] =>
                    destruct (row_byte s a b); try reflexivity
                end).
  discriminate.
Qed.

Lemma unpack_unpacked m y x st v :
  unpack m y x st = Some v -> unpacked m (grid_sh st) (y, x) v.
Proof.
  unfold unpack, unpacked, cell_from, row_byte. simpl.
  destruct m; intros H;
    repeat match type of H with
           | context [load2 ?t ?p ?q] =>
               let E := fresh "E" in
               destruct (load2 t p q) eqn:E; try discriminate
           end; inversion H; subst; eauto 10.
Qed.

Lemma set_cell_sh y x v st st' :
  set_cell y x v st = Some st' -> grid_sh st' = grid_sh st.
Proof.
  unfold set_cell, grid_sh. intros H.
  destruct (store2 y x v (img_map (rs_img st))) as [m|] eqn:E; [|discriminate].
  inversion H; subst. simpl. f_equal. eapply store2_shape; eauto.
Qed.

Lemma writes_set_cell m y x :
  writes cells_load grid_sh (unpacked m)
    (fun st => do v <- unpack m y x st; set_cell y x v st)
    (fun p => p = (y, x)).
Proof.
  intros t t' E.
  destruct (unpack m y x t) as [v|] eqn:Ev; [|discriminate].
  pose proof (unpack_unpacked _ _ _ _ _ Ev) as Hv.
  split; [eapply set_cell_sh; eauto|].
  unfold set_cell in E.
  destruct (store2 y x v (img_map (rs_img t))) as [m'|] eqn:Es; [|discriminate].
  inversion E; subst t'. unfold cells_load. simpl. split.
  - intros [y' x']. simpl.
    destruct (Nat.eq_dec y' y) as [->|Hy].
    + destruct (Nat.eq_dec x' x) as [->|Hx].
      * right. exists v. split; [assumption|]. eapply store2_same; eauto.
      * left. eapply store2_other; eauto.
    + left. eapply store2_other; eauto.
  - intros p ->. exists v. split; [assumption|]. simpl.
    eapply store2_same; eauto.
Qed.

Lemma read_cells_writes m h w :
  writes cells_load grid_sh (unpacked m)
    (for_ h (fun y => for_ w (fun x st =>
       do v <- unpack m y x st; set_cell y x v st)))
    (grid_cells h w).
Proof.
  eapply writes_weaken; [|apply writes_for; intros y Hy;
    apply writes_for; intros x Hx; apply writes_set_cell].
  intros [y x] (Hy & Hx). simpl in *.
  exists y. split; [assumption|]. exists x. split; [assumption|reflexivity].
Qed.

(** What the loops leave: the state is the one they started from but for the
    cells, the grid keeps its shape, and every cell of the [height] by
    [width] grid is the one its bytes make. *)
Lemma read_cells_sound m st st' :
  supported m = true ->
  read_cells m st = Some st' ->
  with_map [] st' = with_map [] st /\
  shape (img_map (rs_img st')) = shape (img_map (rs_img st)) /\
  forall y x, (y < height_of st)%nat -> (x < width_of st)%nat ->
    exists v, cell_from m (info_rows (rs_info st)) y x v /\
              load2 (img_map (rs_img st')) y x = Some v.
Proof.
  intros Hm E. rewrite read_cells_unfold in E by assumption.
  destruct (read_cells_writes m _ _ _ _ E) as (Hs & _ & Hw).
  unfold grid_sh in Hs. apply pair_equal_spec in Hs. destruct Hs as (Hst & Hsh).
  split; [assumption|]. split; [assumption|].
  intros y x Hy Hx. apply (Hw (y, x)). split; assumption.
Qed.

Lemma load2_outside {A : Type} (t : list (list A)) n h y x :
  shape t = repeat n h -> (h <= y \/ n <= x)%nat -> load2 t y x = None.
Proof.
  intros Hs Hout. unfold load2.
  destruct (nth_error t y) as [row|] eqn:Ey; [|reflexivity].
  destruct (shape_In _ _ _ Hs) as (Hlen & Hrow).
  assert (Hy : (y < length t)%nat) by (apply nth_error_Some; congruence).
  apply nth_error_None. rewrite (Hrow row) by (eapply nth_error_In; eauto). lia.
Qed.

Lemma load2_inside {A : Type} (t : list (list A)) n h y x :
  shape t = repeat n h -> (y < h)%nat -> (x < n)%nat ->
  exists v, load2 t y x = Some v.
Proof.
  intros Hs Hy Hx. apply (load2_total t y x n); [|assumption].
  rewrite Hs. now apply nth_error_repeat.
Qed.

(** The cell of a pixel is defined when the rows have the stride of the
    colour model. *)
Lemma unpack_total m st y x :
  supported m = true ->
  shape (info_rows (rs_info st))
    = repeat (width_of st * Z.to_nat (stride m))%nat (height_of st) ->
  (y < height_of st)%nat -> (x < width_of st)%nat ->
  exists v, unpack m y x st = Some v.
Proof.
  intros Hm Hs Hy Hx. unfold unpack, row_byte.
  destruct m; try discriminate; simpl in Hs;
    repeat match goal with
           | |- context [load2 ?t ?p ?q] =>
               let v := fresh "v" in
               let E := fresh "E" in
               destruct (load2_inside t _ _ p q Hs) as (v & E);
               [assumption | lia | rewrite E]
           end; eauto.
Qed.

Lemma read_cells_total m st :
  supported m = true ->
  shape (info_rows (rs_info st))
    = repeat (width_of st * Z.to_nat (stride m))%nat (height_of st) ->
  shape (img_map (rs_img st)) = repeat (width_of st) (height_of st) ->
  exists st', read_cells m st = Some st'.
Proof.
  intros Hm Hrows Hmap. rewrite read_cells_unfold by assumption.
  assert (R : runs grid_sh (grid_sh st)
                (for_ (height_of st) (fun y =>
                   for_ (width_of st) (fun x st0 =>
                     do v <- unpack m y x st0; set_cell y x v st0)))).
  { apply runs_for. intros y Hy. apply runs_for. intros x Hx t Ht.
    assert (Hinfo : rs_info t = rs_info st).
    { unfold grid_sh in Ht. apply pair_equal_spec in Ht.
      destruct Ht as (Ht & _). apply (f_equal rs_info) in Ht. exact Ht. }
    assert (Hsh : shape (img_map (rs_img t)) = repeat (width_of st) (height_of st)).
    { unfold grid_sh in Ht. apply pair_equal_spec in Ht.
      destruct Ht as (_ & Ht). congruence. }
    destruct (unpack_total m t y x Hm) as (v & Ev);
      unfold height_of, width_of; rewrite ?Hinfo; try assumption.
    rewrite Ev. unfold set_cell.
    destruct (store2_total y x v (img_map (rs_img t)) (width_of st))
      as (m' & Em); [rewrite Hsh; now apply nth_error_repeat | assumption |].
    rewrite Em. eexists. split; [reflexivity|].
    rewrite <- Ht. unfold grid_sh. simpl. f_equal.
    eapply store2_shape; eauto. }
  destruct (R st eq_refl) as (st' & E & _). eauto.
Qed.

(** ** The palette read from [info] *)

Lemma with_palette_same st : with_palette (img_palette (rs_img st)) st = st.
Proof. destruct st as [info [w h m n p c]]. reflexivity. Qed.

Lemma read_palette_factor n :
  forall i st,
    for_from i n read_palette_entry st =
    do p <- for_from i n (read_palette_pure (info_palette (rs_info st)))
              (img_palette (rs_img st));
    Some (with_palette p st).
Proof.
  induction n as [|n IH]; intros i st; simpl.
  - now rewrite with_palette_same.
  - unfold read_palette_entry at 1. unfold read_palette_pure at 1.
    destruct (nth_error (info_palette (rs_info st)) i) as [pc|]; [|reflexivity].
    destruct (palette_store i _ (img_palette (rs_img st))) as [p|];
      [|reflexivity].
    rewrite IH. simpl.
    destruct (for_from (S i) n _ p); reflexivity.
Qed.

Lemma skipn_nth_error {A : Type} (l : list A) i x :
  nth_error l i = Some x -> skipn i l = x :: skipn (S i) l.
Proof.
  revert i. induction l as [|y l IH]; intros [|i] H; simpl in *;
    try discriminate.
  - now inversion H.
  - now apply IH.
Qed.

Lemma read_palette_exact src n :
  forall i pal,
    length pal = i ->
    (i + n <= length src)%nat -> (i + n <= 256)%nat ->
    for_from i n (read_palette_pure src) pal =
    Some (pal ++ map of_png_color (firstn n (skipn i src))).
Proof.
  induction n as [|n IH]; intros i pal Hlen Hsrc Hcap; simpl.
  - now rewrite app_nil_r.
  - unfold read_palette_pure at 1.
    destruct (nth_error src i) as [pc|] eqn:Epc;
      [|apply nth_error_None in Epc; lia].
    unfold palette_store. rewrite Hlen.
    destruct (Nat.ltb_spec i i); [lia|].
    rewrite Nat.eqb_refl. destruct (Nat.ltb_spec i 256); [|lia]. simpl.
    rewrite IH by (rewrite ?length_app; simpl; lia).
    rewrite (skipn_nth_error _ _ _ Epc). simpl.
    now rewrite <- app_assoc.
Qed.

(** ** The [switch] of [read_png_stream] *)

Lemma decode_rows_model hp info :
  decode_rows hp info =
  match model_of (info_color_type info) with
  | Some m => read_case hp info m (read_fill m)
  | None => Value (None, info)
  end.
Proof.
  unfold decode_rows, model_of.
  repeat match goal with
         | |- context [if ?c then _ else _] => destruct c; try reflexivity
         end.
Qed.

Lemma model_of_supported color_type m :
  model_of color_type = Some m -> supported m = true.
Proof.
  unfold model_of.
  repeat match goal with
         | |- context [if ?c then _ else _] => destruct c
         end; intros H; inversion H; reflexivity.
Qed.

Lemma allocate_image_Some hp w h m img :
  allocate_image hp w h m = Some img ->
  heap_ok hp = true /\ 0 < w /\ 0 < h /\
  img = {| img_width := w; img_height := h; img_color_type := m;
           img_palette_num := 0; img_palette := [];
           img_map := repeat (repeat (heap_cell hp) (Z.to_nat w)) (Z.to_nat h) |}.
Proof.
  unfold allocate_image.
  destruct (w <=? 0) eqn:Hw; [discriminate|].
  destruct (h <=? 0) eqn:Hh; [discriminate|].
  destruct (heap_ok hp); [|discriminate]. simpl.
  intros H. inversion H. apply Z.leb_gt in Hw, Hh. auto.
Qed.

Lemma with_map_eq a b :
  with_map [] a = with_map [] b -> a = with_map (img_map (rs_img a)) b.
Proof.
  destruct a as [ia [aw ah am an ap ac]], b as [ib [bw bh bm bn bp bc]].
  unfold with_map. simpl. intros H. inversion H. reflexivity.
Qed.

(** The state in which the loops over the grid start. *)
Lemma read_fill_cells m st st' :
  supported m = true ->
  img_palette_num (rs_img st) = 0 -> img_palette (rs_img st) = [] ->
  read_fill m st = Some st' ->
  exists st0,
    rs_info st0 = rs_info st /\
    img_map (rs_img st0) = img_map (rs_img st) /\
    img_width (rs_img st0) = img_width (rs_img st) /\
    img_height (rs_img st0) = img_height (rs_img st) /\
    img_color_type (rs_img st0) = img_color_type (rs_img st) /\
    palette_decoded m (rs_info st) (img_palette_num (rs_img st0))
                    (img_palette (rs_img st0)) /\
    read_cells m st0 = Some st'.
Proof.
  intros Hm Hn Hp E. destruct m; try discriminate; simpl in E;
    try (exists st; now repeat split).
  unfold read_index in E.
  set (st1 := with_palette_num (info_num_palette (rs_info st)) st) in *.
  destruct (for_ _ read_palette_entry st1) as [st2|] eqn:Ep; [|discriminate].
  unfold for_ in Ep. rewrite read_palette_factor in Ep.
  destruct (for_from 0 _ _ _) as [p|] eqn:Epure; [|discriminate].
  inversion Ep; subst st2. exists (with_palette p st1).
  simpl in Epure. rewrite Hp in Epure.
  repeat split; [exact Epure | exact E].
Qed.

(** What a decoded image is: the dimensions of [info], the model of its
    colour type, the palette read from [info], and in every cell of the grid
    the cell its bytes make.  The [info] is as it was. *)
Lemma decode_rows_sound hp info img info' :
  decode_rows hp info = Value (Some img, info') ->
  exists m,
    model_of (info_color_type info) = Some m /\
    info' = info /\
    heap_ok hp = true /\ 0 < info_width info /\ 0 < info_height info /\
    img_width img = info_width info /\
    img_height img = info_height info /\
    img_color_type img = m /\
    palette_decoded m info (img_palette_num img) (img_palette img) /\
    shape (img_map img)
      = repeat (Z.to_nat (info_width info)) (Z.to_nat (info_height info)) /\
    forall y x,
      (y < Z.to_nat (info_height info))%nat ->
      (x < Z.to_nat (info_width info))%nat ->
      exists v, cell_from m (info_rows info) y x v /\ cell img y x = Some v.
Proof.
  rewrite decode_rows_model.
  destruct (model_of (info_color_type info)) as [m|] eqn:Hmod; [|discriminate].
  pose proof (model_of_supported _ _ Hmod) as Hm.
  unfold read_case.
  destruct (allocate_image hp _ _ m) as [img0|] eqn:Ea; [|discriminate].
  destruct (read_fill m _) as [st'|] eqn:Ef; [|discriminate].
  intros H. inversion H; subst img info'. clear H.
  apply allocate_image_Some in Ea. destruct Ea as (Hok & Hw & Hh & ->).
  apply read_fill_cells in Ef; [|assumption|reflexivity|reflexivity].
  destruct Ef as (st0 & Hinfo & Hmap & Hw0 & Hh0 & Hm0 & Hpal & Ec).
  simpl in Hinfo, Hmap, Hw0, Hh0, Hm0, Hpal.
  destruct (read_cells_sound _ _ _ Hm Ec) as (Hst & Hsh & Hcells).
  apply with_map_eq in Hst. rewrite Hst. simpl.
  unfold height_of, width_of in Hcells. rewrite Hinfo in Hcells.
  rewrite Hmap, shape_repeat, repeat_length in Hsh.
  exists m. repeat split; auto.
Qed.

(** Decoding returns an image when memory is available, the dimensions are
    positive, the rows have the stride of the colour model and, for a
    palette, [info] holds the entries it counts, at most 256. *)
Lemma decode_rows_exact hp info m :
  model_of (info_color_type info) = Some m ->
  heap_ok hp = true -> 0 < info_width info -> 0 < info_height info ->
  shape (info_rows info)
    = repeat (Z.to_nat (info_width info) * Z.to_nat (stride m))%nat
             (Z.to_nat (info_height info)) ->
  (m = COLOR_TYPE_INDEX ->
     0 <= info_num_palette info <= 256 /\
     (Z.to_nat (info_num_palette info) <= length (info_palette info))%nat) ->
  exists cells,
    decode_rows hp info =
      Value (Some {| img_width := info_width info;
                     img_height := info_height info;
                     img_color_type := m;
                     img_palette_num := fst (palette_read m info);
                     img_palette := snd (palette_read m info);
                     img_map := cells |}, info) /\
    shape cells
      = repeat (Z.to_nat (info_width info)) (Z.to_nat (info_height info)) /\
    forall y x,
      (y < Z.to_nat (info_height info))%nat ->
      (x < Z.to_nat (info_width info))%nat ->
      exists v, cell_from m (info_rows info) y x v /\ load2 cells y x = Some v.
Proof.
  intros Hmod Hok Hw Hh Hrows Hpal.
  pose proof (model_of_supported _ _ Hmod) as Hm.
  rewrite decode_rows_model, Hmod. unfold read_case, allocate_image.
  destruct (Z.leb_spec (info_width info) 0); [lia|].
  destruct (Z.leb_spec (info_height info) 0); [lia|].
  rewrite Hok. simpl.
  set (img0 := {| img_width := info_width info; img_map := _ |}).
  set (st := {| rs_info := info; rs_img := img0 |}).
  assert (Hstart : exists st0,
    read_fill m st = read_cells m st0 /\
    rs_info st0 = info /\
    rs_img st0 = {| img_width := info_width info;
                    img_height := info_height info;
                    img_color_type := m;
                    img_palette_num := fst (palette_read m info);
                    img_palette := snd (palette_read m info);
                    img_map := img_map img0 |}).
  { destruct m; try discriminate; try (exists st; now repeat split).
    destruct (Hpal eq_refl) as (Hn & Hlen).
    simpl read_fill. unfold read_index, for_.
    rewrite read_palette_factor. simpl.
    rewrite (read_palette_exact _ _ 0 []) by (simpl; lia).
    simpl. eexists. split; [reflexivity|]. split; reflexivity. }
  destruct Hstart as (st0 & -> & Hinfo & Himg).
  destruct (read_cells_total m st0 Hm) as (st' & Ec).
  { unfold width_of, height_of. now rewrite Hinfo. }
  { unfold width_of, height_of. rewrite Hinfo, Himg. simpl.
    now rewrite shape_repeat, repeat_length. }
  rewrite Ec.
  destruct (read_cells_sound _ _ _ Hm Ec) as (Hst & Hsh & Hcells).
  apply with_map_eq in Hst.
  exists (img_map (rs_img st')). split; [|split].
  - rewrite Hst at 1 2. unfold with_map. simpl. rewrite Hinfo, Himg. reflexivity.
  - rewrite Hsh, Himg. simpl. now rewrite shape_repeat, repeat_length.
  - unfold height_of, width_of in Hcells. rewrite Hinfo in Hcells. exact Hcells.
Qed.

(** ** Valid images and the alpha-forcing rule *)

Lemma shape_uniform {A : Type} (t : list (list A)) n :
  (forall row, In row t -> length row = n) -> shape t = repeat n (length t).
Proof.
  unfold shape. induction t as [|row t IH]; intros H; simpl; [reflexivity|].
  rewrite (H row) by now left. f_equal. apply IH. intros r Hr. apply H. now right.
Qed.

Lemma valid_image_spec img :
  valid_image img = true ->
  0 < img_width img /\ 0 < img_height img /\
  shape (img_map img) = repeat (columns_of img) (rows_of img) /\
  match img_color_type img with
  | COLOR_TYPE_INDEX =>
      img_palette_num img = Z.of_nat (length (img_palette img)) /\
      img_palette_num img <= 256
  | _ => img_palette_num img = 0 /\ img_palette img = []
  end.
Proof.
  unfold valid_image. rewrite !andb_true_iff.
  intros ((((Hw & Hh) & Hlen) & Hrows) & Hpal).
  apply Z.ltb_lt in Hw, Hh. apply Nat.eqb_eq in Hlen.
  rewrite forallb_forall in Hrows.
  split; [assumption|]. split; [assumption|]. split.
  - rewrite <- Hlen. apply shape_uniform. intros row Hin.
    apply Nat.eqb_eq. now apply Hrows.
  - destruct (img_color_type img);
      rewrite andb_true_iff in Hpal; destruct Hpal as (Hn & Hp);
      try (apply Z.eqb_eq in Hn; split; [assumption|];
           destruct (img_palette img); [reflexivity|discriminate]).
    apply Z.eqb_eq in Hn. apply Z.leb_le in Hp. auto.
Qed.

Lemma load2_map {A B : Type} (f : A -> B) (t : list (list A)) y x :
  load2 (map (map f) t) y x = option_map f (load2 t y x).
Proof.
  unfold load2. rewrite nth_error_map.
  destruct (nth_error t y) as [row|]; simpl; [|reflexivity].
  apply nth_error_map.
Qed.

Lemma shape_map {A B : Type} (f : A -> B) (t : list (list A)) :
  shape (map (map f) t) = shape t.
Proof.
  unfold shape. rewrite map_map. apply map_ext. intros row. apply length_map.
Qed.

Lemma alpha_forced_other img :
  img_color_type img <> COLOR_TYPE_RGB -> alpha_forced img = img.
Proof.
  unfold alpha_forced. destruct (img_color_type img); congruence.
Qed.

Lemma alpha_forced_opaque img : all_opaque img -> alpha_forced img = img.
Proof.
  intros Ha. unfold alpha_forced.
  destruct (img_color_type img) eqn:Hm; try reflexivity.
  destruct img as [w h m n p cells]. simpl in *. subst m. f_equal.
  apply table_ext; [apply shape_map|].
  intros y x. rewrite load2_map.
  destruct (load2 cells y x) as [[v|v|c]|] eqn:E; try reflexivity.
  simpl. specialize (Ha y x c E). destruct c as [cr cg cb ca].
  simpl in *. now subst ca.
Qed.

Lemma cell_alpha_forced img y x :
  cell (alpha_forced img) y x =
  match img_color_type img with
  | COLOR_TYPE_RGB => option_map opaque (cell img y x)
  | _ => cell img y x
  end.
Proof.
  unfold alpha_forced, cell.
  destruct (img_color_type img); try reflexivity.
  simpl. apply load2_map.
Qed.

(** The cell that the bytes of a written pixel make is the cell of the image,
    modulo the alpha-forcing rule. *)
Lemma written_cell_from img rows0 rows y x v :
  write_rows img rows0 = Some rows ->
  (y < rows_of img)%nat -> (x < columns_of img)%nat ->
  cell_from (img_color_type img) rows y x v ->
  cell (alpha_forced img) y x = Some v.
Proof.
  intros E Hy Hx Hv. rewrite cell_alpha_forced.
  destruct (img_color_type img) eqn:Hm; simpl in Hv.
  - destruct (write_rows_index _ _ _ Hm E y x Hy Hx) as (w & Hc & Hl).
    destruct Hv as (v0 & H0 & ->). congruence.
  - destruct (write_rows_gray _ _ _ Hm E y x Hy Hx) as (w & Hc & Hl).
    destruct Hv as (v0 & H0 & ->). congruence.
  - destruct (write_rows_rgb _ _ _ Hm E y x Hy Hx) as (c & Hc & L0 & L1 & L2).
    destruct Hv as (v0 & v1 & v2 & H0 & H1 & H2 & ->).
    rewrite Hc. simpl. congruence.
  - destruct (write_rows_rgba _ _ _ Hm E y x Hy Hx)
      as (c & Hc & L0 & L1 & L2 & L3).
    destruct Hv as (v0 & v1 & v2 & v3 & H0 & H1 & H2 & H3 & ->).
    rewrite Hc. destruct c as [cr cg cb ca]. simpl in *. congruence.
  - destruct Hv.
Qed.

Lemma image_ext (i1 i2 : image_t) :
  img_width i1 = img_width i2 -> img_height i1 = img_height i2 ->
  img_color_type i1 = img_color_type i2 ->
  img_palette_num i1 = img_palette_num i2 ->
  img_palette i1 = img_palette i2 -> img_map i1 = img_map i2 ->
  i1 = i2.
Proof.
  destruct i1, i2. simpl. intros; subst; reflexivity.
Qed.

Lemma alpha_forced_fields img :
  img_width (alpha_forced img) = img_width img /\
  img_height (alpha_forced img) = img_height img /\
  img_color_type (alpha_forced img) = img_color_type img /\
  img_palette_num (alpha_forced img) = img_palette_num img /\
  img_palette (alpha_forced img) = img_palette img /\
  shape (img_map (alpha_forced img)) = shape (img_map img).
Proof.
  unfold alpha_forced. destruct (img_color_type img) eqn:Hm;
    simpl; rewrite ?Hm, ?shape_map; repeat split; reflexivity.
Qed.

Lemma of_to_png_color pal : map of_png_color (map to_png_color pal) = pal.
Proof.
  rewrite map_map. rewrite <- (map_id pal) at 2. apply map_ext.
  intros [pr pg pb]. reflexivity.
Qed.

Lemma row_layout_model img color_type row_size :
  row_layout img = Some (color_type, row_size) ->
  model_of color_type = Some (img_color_type img).
Proof.
  unfold row_layout.
  destruct (img_color_type img); intros H; try discriminate;
    injection H as <- _; reflexivity.
Qed.

(** The palette that a valid image hands over comes back as it was. *)
Lemma palette_comes_back junk img num pal color_type w h rows :
  valid_image img = true ->
  palette_handed junk img num pal ->
  palette_read (img_color_type img)
    {| info_width := w; info_height := h; info_color_type := color_type;
       info_num_palette := num; info_palette := pal; info_rows := rows |}
  = (img_palette_num img, img_palette img) /\
  (img_color_type img = COLOR_TYPE_INDEX ->
     0 <= num <= 256 /\ (Z.to_nat num <= length pal)%nat).
Proof.
  intros Hvalid Hpal.
  destruct (valid_image_spec _ Hvalid) as (_ & _ & _ & Hpv).
  unfold palette_handed in Hpal. unfold palette_read.
  destruct (img_color_type img); simpl;
    try (destruct Hpv as (-> & ->); split; [reflexivity|discriminate]).
  destruct Hpal as (-> & Hn & Hp). destruct Hpv as (Hlen & Hcap).
  apply write_palette_sound in Hp. destruct Hp as (Hle & ->).
  rewrite Hlen, Nat2Z.id, firstn_all.
  split.
  - f_equal. rewrite <- (length_map to_png_color), firstn_all.
    apply of_to_png_color.
  - intros _. rewrite length_map. lia.
Qed.

(** ** Claims about the round trip and about reading *)

Lemma cell_from_fun m rows y x v v' :
  cell_from m rows y x v -> cell_from m rows y x v' -> v = v'.
Proof.
  unfold cell_from. destruct m; intros H H'.
  - destruct H as (v0 & H0 & ->), H' as (w0 & K0 & ->). congruence.
  - destruct H as (v0 & H0 & ->), H' as (w0 & K0 & ->). congruence.
  - destruct H as (v0 & v1 & v2 & H0 & H1 & H2 & ->),
             H' as (w0 & w1 & w2 & K0 & K1 & K2 & ->). congruence.
  - destruct H as (v0 & v1 & v2 & v3 & H0 & H1 & H2 & H3 & ->),
             H' as (w0 & w1 & w2 & w3 & K0 & K1 & K2 & K3 & ->). congruence.
  - destruct H.
Qed.

Lemma cell_inside img n h y x v :
  shape (img_map img) = repeat n h -> cell img y x = Some v ->
  (y < h)%nat /\ (x < n)%nat.
Proof.
  intros Hs Hc. unfold cell in Hc.
  destruct (Nat.lt_ge_cases y h) as [Hy|Hy];
    [destruct (Nat.lt_ge_cases x n) as [Hx|Hx]; [auto|]|].
  - rewrite (load2_outside _ _ _ y x Hs) in Hc by (now right). discriminate.
  - rewrite (load2_outside _ _ _ y x Hs) in Hc by (now left). discriminate.
Qed.

Lemma decode_rows_info hp info res info' :
  decode_rows hp info = Value (res, info') -> info' = info.
Proof.
  intros H. destruct res as [img|].
  - apply decode_rows_sound in H. destruct H as (m & _ & Hi & _). exact Hi.
  - rewrite decode_rows_model in H.
    destruct (model_of (info_color_type info)) as [m|]; [|now inversion H].
    unfold read_case in H.
    destruct (allocate_image hp _ _ m); [|now inversion H].
    destruct (read_fill m _); inversion H.
Qed.

(** C3 (decoding RGB).  When the [switch] returns an image for the colour type
    [PNG_COLOR_TYPE_RGB], the cell at row [y], column [x] holds in [r], [g],
    [b] the bytes at offsets [x*3], [x*3+1], [x*3+2] of row [y], and alpha
    255; no colour cell of the image has another alpha. *)
Theorem decode_rgb_cells hp info img info' :
  info_color_type info = PNG_COLOR_TYPE_RGB ->
  decode_rows hp info = Value (Some img, info') ->
  (forall y x,
     (y < Z.to_nat (info_height info))%nat ->
     (x < Z.to_nat (info_width info))%nat ->
     exists v0 v1 v2,
       load2 (info_rows info) y (x * 3 + 0) = Some v0 /\
       load2 (info_rows info) y (x * 3 + 1) = Some v1 /\
       load2 (info_rows info) y (x * 3 + 2) = Some v2 /\
       cell img y x = Some (Px_c {| r := v0; g := v1; b := v2; a := 255 |})) /\
  all_opaque img.
Proof.
  intros Hct Hdec. apply decode_rows_sound in Hdec.
  destruct Hdec as (m & Hmod & _ & _ & _ & _ & _ & _ & _ & _ & Hs & Hcells).
  rewrite Hct in Hmod. inversion Hmod; subst m. clear Hmod.
  split.
  - intros y x Hy Hx. destruct (Hcells y x Hy Hx) as (v & Hv & Hc).
    destruct Hv as (v0 & v1 & v2 & H0 & H1 & H2 & ->).
    exists v0, v1, v2. auto.
  - intros y x c Hc.
    destruct (cell_inside _ _ _ _ _ _ Hs Hc) as (Hy & Hx).
    destruct (Hcells y x Hy Hx) as (v & Hv & Hc').
    destruct Hv as (v0 & v1 & v2 & _ & _ & _ & ->).
    rewrite Hc in Hc'. inversion Hc'. reflexivity.
Qed.

Lemma decode_rgb_cells_witness :
  (forall y x,
     (y < Z.to_nat (info_height rgb_1x1_info))%nat ->
     (x < Z.to_nat (info_width rgb_1x1_info))%nat ->
     exists v0 v1 v2,
       load2 (info_rows rgb_1x1_info) y (x * 3 + 0) = Some v0 /\
       load2 (info_rows rgb_1x1_info) y (x * 3 + 1) = Some v1 /\
       load2 (info_rows rgb_1x1_info) y (x * 3 + 2) = Some v2 /\
       cell rgb_1x1 y x
         = Some (Px_c {| r := v0; g := v1; b := v2; a := 255 |})) /\
  all_opaque rgb_1x1.
Proof.
  apply (decode_rgb_cells stale rgb_1x1_info rgb_1x1 rgb_1x1_info);
    reflexivity.
Defined.

(** C7 (decoding twice).  Two calls of the [switch] on the same [info] that
    both return an image return the same image, whatever the allocator gave
    them to start with; and a call that returns leaves [info], with its rows
    and its palette, as it was. *)
Theorem decode_twice hp1 hp2 info res1 res2 info1 info2 :
  decode_rows hp1 info = Value (res1, info1) ->
  decode_rows hp2 info = Value (res2, info2) ->
  info1 = info /\ info2 = info /\
  forall img1 img2, res1 = Some img1 -> res2 = Some img2 -> img1 = img2.
Proof.
  intros H1 H2.
  split; [eapply decode_rows_info; eauto|].
  split; [eapply decode_rows_info; eauto|].
  intros img1 img2 -> ->.
  apply decode_rows_sound in H1, H2.
  destruct H1 as (m & Hmod & _ & _ & _ & _ & Hw1 & Hh1 & Hm1 & Hp1 & Hs1 & Hc1).
  destruct H2 as (m' & Hmod' & _ & _ & _ & _ & Hw2 & Hh2 & Hm2 & Hp2 & Hs2 & Hc2).
  assert (Hmm : m' = m) by congruence.
  rewrite Hmm in Hm2, Hp2, Hc2. clear Hmm Hmod' m'.
  assert (Hpal : img_palette_num img1 = img_palette_num img2 /\
                 img_palette img1 = img_palette img2).
  { unfold palette_decoded in Hp1, Hp2.
    destruct m; destruct Hp1 as (E1 & F1), Hp2 as (E2 & F2);
      split; congruence. }
  destruct Hpal as (Hn & Hp).
  apply image_ext; try congruence.
  apply table_ext; [congruence|]. intros y x.
  destruct (Nat.lt_ge_cases y (Z.to_nat (info_height info))) as [Hy|Hy];
    [destruct (Nat.lt_ge_cases x (Z.to_nat (info_width info))) as [Hx|Hx]|].
  - destruct (Hc1 y x Hy Hx) as (v & Hv & E1).
    destruct (Hc2 y x Hy Hx) as (v' & Hv' & E2).
    unfold cell in E1, E2. rewrite E1, E2. f_equal.
    eapply cell_from_fun; eauto.
  - rewrite (load2_outside _ _ _ y x Hs1), (load2_outside _ _ _ y x Hs2);
      auto.
  - rewrite (load2_outside _ _ _ y x Hs1), (load2_outside _ _ _ y x Hs2);
      auto.
Qed.

Lemma decode_twice_witness :
  rgb_1x1_info = rgb_1x1_info /\ rgb_1x1_info = rgb_1x1_info /\
  forall img1 img2,
    Some rgb_1x1 = Some img1 -> Some rgb_1x1 = Some img2 -> img1 = img2.
Proof.
  apply (decode_twice roomy stale rgb_1x1_info (Some rgb_1x1) (Some rgb_1x1)
           rgb_1x1_info rgb_1x1_info); reflexivity.
Defined.

(** C8 (allocation failure).  When the width or the height is not positive,
    or the allocation cannot be satisfied, the [switch] returns no image. *)
Theorem decode_allocation_failure hp info :
  info_width info <= 0 \/ info_height info <= 0 \/ heap_ok hp = false ->
  decode_rows hp info = Value (None, info) /\
  forall fp, read_png fp = Some info -> read_png_stream hp fp = Value None.
Proof.
  intros H.
  assert (Ha : forall m,
            allocate_image hp (info_width info) (info_height info) m = None).
  { intros m. unfold allocate_image.
    destruct (Z.leb_spec (info_width info) 0); [reflexivity|].
    destruct (Z.leb_spec (info_height info) 0); [reflexivity|].
    destruct H as [H|[H|H]]; try lia. now rewrite H. }
  assert (Hd : decode_rows hp info = Value (None, info)).
  { rewrite decode_rows_model.
    destruct (model_of (info_color_type info)) as [m|]; [|reflexivity].
    unfold read_case. now rewrite Ha. }
  split; [exact Hd|].
  intros fp Hfp. unfold read_png_stream. rewrite Hfp, Hd.
  destruct (signature_ok fp), (read_struct_ok fp), (read_info_ok fp);
    reflexivity.
Qed.

Lemma decode_allocation_failure_witness :
  decode_rows roomy no_rows_info = Value (None, no_rows_info) /\
  forall fp, read_png fp = Some no_rows_info ->
             read_png_stream roomy fp = Value None.
Proof.
  apply (decode_allocation_failure roomy no_rows_info).
  right. left. vm_compute. discriminate.
Defined.

(** The [switch] of [read_png_stream] is [decode_rows_with] at the allocator
    of the library. *)
Lemma decode_rows_with_allocate hp info :
  decode_rows_with (allocate_image hp) info = decode_rows hp info.
Proof. reflexivity. Qed.





(** ** Writing returns

    The theorems about writing above start from a call that returned
    [SUCCESS].  There are such calls: when libpng cooperates,
    [write_png_stream] returns [SUCCESS] for every valid image whose cells hold
    the member of its colour model and whose rows fit an [int]. *)

Section RunsFacts.
Variables Mem Sh : Type.
Variable sh : Mem -> Sh.

Lemma runs_ext (s : Sh) (B B' : Mem -> option Mem) :
  (forall t, B t = B' t) -> runs sh s B -> runs sh s B'.
Proof.
  intros HB H t Ht. rewrite <- HB. now apply H.
Qed.

Lemma runs_seq (s : Sh) (B1 B2 : Mem -> option Mem) :
  runs sh s B1 -> runs sh s B2 ->
  runs sh s (fun t => do t1 <- B1 t; B2 t1).
Proof.
  intros H1 H2 t Ht. destruct (H1 t Ht) as (t1 & E1 & Ht1).
  rewrite E1. now apply H2.
Qed.
End RunsFacts.

Arguments runs_ext {Mem Sh sh} s B B'.
Arguments runs_seq {Mem Sh sh} s B1 B2.

Lemma runs_store {A X : Type} (e : option X) (f : X -> A) (s : list nat)
  y i n x :
  e = Some x -> nth_error s y = Some n -> (i < n)%nat ->
  runs (@shape A) s (fun t => do x <- e; store2 y i (f x) t).
Proof.
  intros -> Hn Hi t Ht. subst s.
  destruct (store2_total y i (f x) t n Hn Hi) as (t' & E).
  exists t'. split; [assumption|]. eapply store2_shape; eauto.
Qed.

Lemma typed_cells_active img y x p :
  typed_cells img = true -> cell img y x = Some p ->
  active (img_color_type img) p = true.
Proof.
  unfold typed_cells, cell, load2. intros Ht Hc.
  destruct (nth_error (img_map img) y) as [row|] eqn:Ey; [|discriminate].
  rewrite forallb_forall in Ht.
  specialize (Ht row (nth_error_In _ _ Ey)).
  rewrite forallb_forall in Ht. apply Ht. eapply nth_error_In; eauto.
Qed.

Lemma write_rows_total img rows :
  supported (img_color_type img) = true ->
  typed_cells img = true ->
  shape (img_map img) = repeat (columns_of img) (rows_of img) ->
  shape rows
    = repeat (columns_of img * Z.to_nat (stride (img_color_type img)))%nat
             (rows_of img) ->
  exists rows', write_rows img rows = Some rows'.
Proof.
  intros Hm Ht Hmap Hrows.
  assert (Hcell : forall y x, (y < rows_of img)%nat -> (x < columns_of img)%nat ->
            exists p, cell img y x = Some p /\
                      active (img_color_type img) p = true).
  { intros y x Hy Hx.
    destruct (load2_inside _ _ _ y x Hmap Hy Hx) as (p & Hp).
    exists p. split; [exact Hp|]. eapply typed_cells_active; eauto. }
  assert (R : runs (@shape Z) (shape rows) (write_rows img)).
  { unfold write_rows.
    destruct (img_color_type img) eqn:Hk; try discriminate;
      try change (Z.to_nat (stride COLOR_TYPE_INDEX)) with 1%nat in Hrows;
      try change (Z.to_nat (stride COLOR_TYPE_GRAY)) with 1%nat in Hrows;
      try change (Z.to_nat (stride COLOR_TYPE_RGB)) with 3%nat in Hrows;
      try change (Z.to_nat (stride COLOR_TYPE_RGBA)) with 4%nat in Hrows;
      apply runs_for; intros y Hy; apply runs_for;
      intros x Hx; destruct (Hcell y x Hy Hx) as ([v|v|c] & Hp & Ha);
      try discriminate.
    - apply (runs_store (cell_i img y x) (fun v => v) _ y x
                 (columns_of img * 1)%nat v);
        [unfold cell_i; now rewrite Hp
        |rewrite Hrows; now apply nth_error_repeat | lia].
    - apply (runs_store (cell_g img y x) (fun v => v) _ y x
                 (columns_of img * 1)%nat v);
        [unfold cell_g; now rewrite Hp
        |rewrite Hrows; now apply nth_error_repeat | lia].
    - assert (Hc : cell_c img y x = Some c) by (unfold cell_c; now rewrite Hp).
      assert (Hn : nth_error (shape rows) y = Some (columns_of img * 3)%nat)
        by (rewrite Hrows; now apply nth_error_repeat).
      eapply runs_ext;
        [|apply runs_seq;
           [apply (runs_store (cell_c img y x) r _ y (x * 3 + 0) _ c Hc Hn)
           |apply runs_seq;
             [apply (runs_store (cell_c img y x) g _ y (x * 3 + 1) _ c Hc Hn)
             |apply (runs_store (cell_c img y x) b _ y (x * 3 + 2) _ c Hc Hn)]]];
        try lia.
      intros t. simpl. rewrite Hc. reflexivity.
    - assert (Hc : cell_c img y x = Some c) by (unfold cell_c; now rewrite Hp).
      assert (Hn : nth_error (shape rows) y = Some (columns_of img * 4)%nat)
        by (rewrite Hrows; now apply nth_error_repeat).
      eapply runs_ext;
        [|apply runs_seq;
           [apply (runs_store (cell_c img y x) r _ y (x * 4 + 0) _ c Hc Hn)
           |apply runs_seq;
             [apply (runs_store (cell_c img y x) g _ y (x * 4 + 1) _ c Hc Hn)
             |apply runs_seq;
               [apply (runs_store (cell_c img y x) b _ y (x * 4 + 2) _ c Hc Hn)
               |apply (runs_store (cell_c img y x) a _ y (x * 4 + 3) _ c Hc Hn)]]]];
        try lia.
      intros t. simpl. rewrite Hc. reflexivity. }
  destruct (R rows eq_refl) as (rows' & E & _). eauto.
Qed.

Lemma alloc_rows_cooperative junk row_size n :
  0 <= row_size ->
  forall tr, exists tr',
    alloc_rows cooperative junk row_size n tr
      = (Next (repeat (repeat junk (Z.to_nat row_size)) n), tr').
Proof.
  intros Hsz. induction n as [|n IH]; intros tr; simpl.
  - eexists. reflexivity.
  - unfold bind, png_malloc, cooperative at 1.
    destruct (Z.ltb_spec row_size 0); [lia|]. simpl.
    destruct (IH (tr ++ [png_malloc_row row_size])) as (tr' & ->).
    eexists. reflexivity.
Qed.

Lemma write_palette_total img (junk : png_color) :
  (Z.to_nat (img_palette_num img) <= length (img_palette img))%nat ->
  exists palette,
    for_ (Z.to_nat (img_palette_num img)) (write_palette_entry img)
         (repeat junk (Z.to_nat (img_palette_num img))) = Some palette.
Proof.
  intros Hle.
  assert (R : runs (@length png_color) (Z.to_nat (img_palette_num img))
                (for_ (Z.to_nat (img_palette_num img))
                      (write_palette_entry img))).
  { apply runs_for. intros i Hi t Ht. unfold write_palette_entry.
    destruct (nth_error (img_palette img) i) as [e|] eqn:Ee;
      [|apply nth_error_None in Ee; lia].
    destruct (store_total i {| red := rgb_r e; green := rgb_g e;
                               blue := rgb_b e |} t) as (t' & E); [lia|].
    exists t'. split; [assumption|].
    rewrite (store_length _ _ _ _ E). assumption. }
  destruct (R (repeat junk (Z.to_nat (img_palette_num img)))
              (repeat_length _ _)) as (palette & E & _).
  eauto.
Qed.

Lemma write_pixels_cooperative junk img rows tr :
  supported (img_color_type img) = true ->
  (img_color_type img = COLOR_TYPE_INDEX ->
     0 <= img_palette_num img /\
     (Z.to_nat (img_palette_num img) <= length (img_palette img))%nat) ->
  (exists rows', write_rows img rows = Some rows') ->
  exists out tr', write_pixels cooperative junk img rows tr = (Next out, tr').
Proof.
  intros Hm Hpal (rows' & Hrows).
  unfold write_pixels. unfold write_rows in Hrows.
  destruct (img_color_type img); try discriminate.
  - destruct (Hpal eq_refl) as (Hn & Hle).
    destruct (write_palette_total img
                {| red := junk; green := junk; blue := junk |} Hle)
      as (palette & Ep).
    unfold bind, png_malloc, local, call, emit, cooperative.
    destruct (Z.ltb_spec (img_palette_num img) 0); [lia|]. simpl.
    rewrite Ep. simpl. rewrite Hrows. do 2 eexists. reflexivity.
  - unfold bind, local. rewrite Hrows. do 2 eexists. reflexivity.
  - unfold bind, local. rewrite Hrows. do 2 eexists. reflexivity.
  - unfold bind, local. rewrite Hrows. do 2 eexists. reflexivity.
Qed.

(** With a cooperating libpng, every valid image with cells of its colour
    model and rows that fit an [int] is written: the call returns [SUCCESS]
    and has handed an image to libpng. *)
Lemma write_png_stream_returns junk img :
  valid_image img = true ->
  typed_cells img = true ->
  supported (img_color_type img) = true ->
  img_width img * stride (img_color_type img) < 2 ^ 31 ->
  exists tr info,
    write_png_stream cooperative junk (Some img) = Returned SUCCESS tr /\
    handed_off tr = Some info.
Proof.
  intros Hvalid Htyped Hm Hfit.
  destruct (valid_image_spec _ Hvalid) as (Hw & Hh & Hshape & Hpv).
  assert (Hrun : exists tr,
            write_png_stream cooperative junk (Some img) = Returned SUCCESS tr).
  { unfold write_png_stream, write_png_stream_from.
    destruct (row_layout img) as [[ct rs]|] eqn:Hlay;
      [|unfold row_layout in Hlay; destruct (img_color_type img); discriminate].
    destruct (row_layout_stride _ _ _ Hlay) as (Hrs & Hk).
    rewrite int_of_small in Hrs by nia. subst rs.
    unfold write_body, write_setup.
    unfold bind at 1 2 3 4 5 6 7 8. unfold call, emit, cooperative. simpl.
    assert (Hsz : 0 <= img_width img * stride (img_color_type img)) by nia.
    match goal with
    | |- context [alloc_rows ?c ?j ?s ?n ?t] =>
        destruct (alloc_rows_cooperative j s n Hsz t) as (tr1 & Ea)
    end.
    unfold cooperative in Ea. rewrite Ea. unfold bind.
    match goal with
    | |- context [write_pixels ?c ?j ?i ?r ?t] =>
        destruct (write_pixels_cooperative j i r t Hm) as (out & tr2 & Ep)
    end.
    { intros Hi. rewrite Hi in Hpv. destruct Hpv as (Hn & _).
      rewrite Hn, Nat2Z.id. split; lia. }
    { apply write_rows_total; try assumption.
      rewrite shape_repeat, repeat_length. f_equal.
      unfold columns_of. rewrite Z2Nat.inj_mul; lia. }
    unfold cooperative in Ep. rewrite Ep.
    destruct out as [[num palette] rows]. simpl. eauto. }
  destruct Hrun as (tr & Hrun). exists tr.
  destruct (write_png_stream_success _ _ _ _ Hrun)
    as (ct & rs & num & pal & rows & _ & Hoff & _).
  eauto.
Qed.

(** ** The scenarios of the specification *)

(** Index, 2 by 1, palette red and green, indices 0 and 1. *)
Example scenario_index_2x1 :
  encoded_with 0 index_2x1 = Some index_2x1_info /\
  decode_rows roomy index_2x1_info = Value (Some index_2x1, index_2x1_info).
Proof. split; reflexivity. Qed.

(** RGB, 1 by 1, pixel (10, 20, 30): three bytes out, alpha 255 back. *)
Example scenario_rgb_1x1 :
  encoded_with 0 rgb_1x1 = Some rgb_1x1_info /\
  decode_rows stale rgb_1x1_info = Value (Some rgb_1x1, rgb_1x1_info).
Proof. split; reflexivity. Qed.

(** The alpha-forcing rule at work: an RGB cell built with alpha 0 is written
    as the same three bytes and comes back with alpha 255. *)
Example scenario_rgb_translucent :
  encoded_with 0 rgb_1x1_translucent = Some rgb_1x1_info /\
  decode_rows roomy rgb_1x1_info = Value (Some rgb_1x1, rgb_1x1_info) /\
  alpha_forced rgb_1x1_translucent = rgb_1x1 /\
  rgb_1x1_translucent <> rgb_1x1.
Proof. repeat split; try reflexivity. discriminate. Qed.

(** A colour type outside the four cases, here gray with alpha, ends with no
    image: the [switch] has no [default]. *)
Example scenario_gray_alpha :
  decode_rows roomy (info_of 0 [] 4 1 1 [[1; 2]])
    = Value (None, info_of 0 [] 4 1 1 [[1; 2]]).
Proof. reflexivity. Qed.

(** Rows shorter than the stride of the colour type: the loads leave the
    rows, which is undefined behaviour. *)
Example scenario_short_row :
  decode_rows roomy (info_of 0 [] PNG_COLOR_TYPE_RGB 1 1 [[10; 20]])
    = Undefined.
Proof. reflexivity. Qed.

(** A width for which [row_size] does not fit an [int]: the conversion wraps
    to a negative size and the first row is refused. *)
Example scenario_wide_row :
  int_of (1 * 2 ^ 30 * 3) = - 2 ^ 30 /\
  exists tr,
    write_png_stream cooperative 0
      (Some {| img_width := 2 ^ 30; img_height := 1;
               img_color_type := COLOR_TYPE_RGB; img_palette_num := 0;
               img_palette := []; img_map := [] |})
      = Returned FAILURE tr.
Proof. split; [reflexivity|]. eexists. reflexivity. Qed.

(** * Further properties of [png.c] *)

(** ** The trace of a call of [write_png_stream] *)

Lemma grows_ret {A : Type} P (v : A) : grows P (ret v).
Proof.
  intros tr res tr' H. inversion H; subst. exists []. now rewrite app_nil_r.
Qed.

Lemma grows_bind {A B : Type} P (m : io A) (k : A -> io B) :
  grows P m -> (forall x, grows P (k x)) -> grows P (bind m k).
Proof.
  intros Hm Hk tr res tr' H. unfold bind in H.
  destruct (m tr) as [[x| |] tr1] eqn:E;
    destruct (Hm _ _ _ E) as (n1 & -> & H1).
  - destruct (Hk x _ _ _ H) as (n2 & -> & H2).
    exists (n1 ++ n2). rewrite app_assoc, forallb_app, H1, H2. auto.
  - inversion H; subst. eauto.
  - inversion H; subst. eauto.
Qed.

Lemma grows_emit P e : P e = true -> grows P (emit e).
Proof.
  intros He tr res tr' H. inversion H; subst. exists [e]. simpl.
  now rewrite He.
Qed.

Lemma grows_call P codec e : P e = true -> grows P (call codec e).
Proof.
  intros He tr res tr' H. unfold call in H.
  destruct (codec (length tr)); inversion H; subst; exists [e]; simpl;
    now rewrite He.
Qed.

Lemma grows_local {A : Type} P (m : option A) : grows P (local m).
Proof.
  intros tr res tr' H. unfold local in H.
  destruct m; inversion H; subst; exists []; now rewrite app_nil_r.
Qed.

Lemma grows_png_malloc {A : Type} P codec e size (junk : A) :
  P e = true -> grows P (png_malloc codec e size junk).
Proof.
  intros He tr res tr' H. unfold png_malloc in H.
  destruct ((size <? 0) || negb (codec (length tr))); inversion H; subst;
    exists [e]; simpl; now rewrite He.
Qed.

Lemma grows_alloc_rows P codec junk row_size n :
  P (png_malloc_row row_size) = true ->
  grows P (alloc_rows codec junk row_size n).
Proof.
  intros He. induction n as [|n IH]; simpl.
  - apply grows_ret.
  - apply grows_bind; [now apply grows_png_malloc|]. intros row.
    apply grows_bind; [assumption|]. intros rest. apply grows_ret.
Qed.

Ltac grows_steps :=
  repeat first
    [ apply grows_ret | apply grows_local
    | apply grows_emit; reflexivity | apply grows_call; reflexivity
    | apply grows_png_malloc; reflexivity
    | apply grows_alloc_rows; reflexivity
    | apply grows_bind; [|intros ?] ].

(** Before [png_write_png], the body calls neither [png_destroy_write_struct]
    nor stdio. *)
Lemma grows_write_setup codec junk img color_type row_size :
  grows (fun e => negb (is_destroy e) && negb (is_stdio e))
    (write_setup codec junk img color_type row_size).
Proof.
  unfold write_setup. grows_steps.
  - unfold write_pixels. destruct (img_color_type img); grows_steps.
  - match goal with x : (_ * _ * _)%type |- _ => destruct x as [[? ?] ?] end.
    apply grows_ret.
Qed.

(** For an image that is not indexed, the body makes no palette call. *)
Lemma grows_write_setup_no_palette codec junk img color_type row_size :
  img_color_type img <> COLOR_TYPE_INDEX ->
  grows (fun e => negb (is_palette_call e))
    (write_setup codec junk img color_type row_size).
Proof.
  intros Hm. unfold write_setup. grows_steps.
  - unfold write_pixels. destruct (img_color_type img);
      [congruence | grows_steps..].
  - match goal with x : (_ * _ * _)%type |- _ => destruct x as [[? ?] ?] end.
    apply grows_ret.
Qed.

(** How a call that got past the first [switch] ends: the set-up either
    reaches [png_write_png], whose outcome decides the result, or leaves for
    [error] before it. *)
Lemma write_png_stream_ends codec junk img res tr :
  write_png_stream codec junk (Some img) = Returned res tr ->
  row_layout img = None /\ res = FAILURE /\ tr = [] \/
  exists color_type row_size pre,
    row_layout img = Some (color_type, row_size) /\
    ((exists info,
        write_setup codec junk img color_type row_size [] = (Next info, pre) /\
        tr = pre ++ [png_write_png info; png_destroy_write_struct] /\
        res = (if codec (length pre) then SUCCESS else FAILURE)) \/
     (write_setup codec junk img color_type row_size [] = (Error, pre) /\
      tr = pre ++ [png_destroy_write_struct] /\ res = FAILURE)).
Proof.
  unfold write_png_stream, write_png_stream_from.
  destruct (row_layout img) as [[color_type row_size]|];
    [|intros H; inversion H; auto].
  intros H. right. exists color_type, row_size.
  unfold write_body, bind in H.
  destruct (write_setup codec junk img color_type row_size [])
    as [[info| |] pre] eqn:E; simpl in H.
  - exists pre. split; [reflexivity|]. left. exists info.
    split; [reflexivity|]. unfold call in H.
    destruct (codec (length pre)); simpl in H; inversion H; subst;
      rewrite <- app_assoc; auto.
  - exists pre. inversion H; subst. auto.
  - discriminate.
Qed.

Lemma setup_rows_shape codec junk img color_type row_size tr info pre :
  0 <= img_width img ->
  row_layout img = Some (color_type, row_size) ->
  write_setup codec junk img color_type row_size tr = (Next info, pre) ->
  info_width info = img_width img /\
  info_height info = img_height img /\
  shape (info_rows info) =
  repeat (Z.to_nat (img_width img * stride (img_color_type img))) (rows_of img).
Proof.
  intros Hw Hlay Hset. apply write_setup_Next in Hset.
  destruct Hset as (num & pal & rows & -> & Hrows & Hsz & Hpal). simpl.
  split; [reflexivity|]. split; [reflexivity|].
  destruct (write_rows_sound _ _ _ Hrows) as (-> & _).
  rewrite shape_repeat, repeat_length.
  destruct (Nat.eq_dec (rows_of img) 0) as [->|Hh]; [reflexivity|].
  f_equal.
  rewrite <- (write_rows_fit junk img color_type row_size rows) by assumption.
  now rewrite Nat2Z.id.
Qed.

Lemma nth_error_snoc2 {A : Type} (l : list A) x y :
  nth_error (l ++ [x; y]) (length (l ++ [x; y]) - 2) = Some x.
Proof.
  rewrite length_app. simpl.
  replace (length l + 2 - 2)%nat with (length l + 0)%nat by lia.
  now rewrite nth_error_app2, Nat.add_0_r, Nat.sub_diag by lia.
Qed.

(** X1 (no partial handoff).  Whatever the result of [write_png_stream] for
    an image of non-negative width: if an image reached libpng, it has the
    dimensions of the image, [height] rows and [width * stride] bytes in every
    row; the call that handed it over is [png_write_png], the last but one of
    the trace, and the result is [SUCCESS] exactly when libpng accepted that
    call.  If no image reached libpng the result is [FAILURE]. *)
Theorem handoff_is_complete codec junk img res tr :
  0 <= img_width img ->
  write_png_stream codec junk (Some img) = Returned res tr ->
  match handed_off tr with
  | Some info =>
      info_width info = img_width img /\
      info_height info = img_height img /\
      length (info_rows info) = Z.to_nat (img_height img) /\
      (forall row, In row (info_rows info) ->
         Z.of_nat (length row) = img_width img * stride (img_color_type img)) /\
      nth_error tr (length tr - 2) = Some (png_write_png info) /\
      res = (if codec (length tr - 2)%nat then SUCCESS else FAILURE)
  | None => res = FAILURE
  end.
Proof.
  intros Hw Hrun.
  destruct (write_png_stream_ends _ _ _ _ _ Hrun)
    as [(_ & -> & ->) | (ct & rs & pre & Hlay & [(info & Hset & -> & ->) |
                                                 (Hset & -> & ->)])].
  - reflexivity.
  - pose proof (quiet_write_setup _ _ _ _ _ _ _ _ Hset eq_refl) as Hq.
    replace (pre ++ [png_write_png info; png_destroy_write_struct])
      with ((pre ++ [png_write_png info]) ++ [png_destroy_write_struct])
      by now rewrite <- app_assoc.
    rewrite !handed_off_app, Hq. simpl.
    rewrite <- app_assoc. simpl.
    destruct (setup_rows_shape _ _ _ _ _ _ _ _ Hw Hlay Hset) as (Ew & Eh & Hs).
    destruct (shape_In _ _ _ Hs) as (Hlen & Hrow).
    destruct (row_layout_stride _ _ _ Hlay) as (_ & Hk).
    repeat split; try assumption.
    + intros row Hin. rewrite (Hrow row Hin). rewrite Z2Nat.id; nia.
    + apply nth_error_snoc2.
    + rewrite length_app. simpl.
      replace (length pre + 2 - 2)%nat with (length pre) by lia. reflexivity.
  - pose proof (quiet_write_setup _ _ _ _ _ _ _ _ Hset eq_refl) as Hq.
    now rewrite handed_off_app, Hq.
Qed.

Lemma handoff_is_complete_witness :
  match handed_off (trace_of (write_png_stream (refusing 8) 0 (Some gray_2x2)))
  with
  | Some info =>
      info_width info = img_width gray_2x2 /\
      info_height info = img_height gray_2x2 /\
      length (info_rows info) = Z.to_nat (img_height gray_2x2) /\
      (forall row, In row (info_rows info) ->
         Z.of_nat (length row)
           = img_width gray_2x2 * stride (img_color_type gray_2x2)) /\
      nth_error (trace_of (write_png_stream (refusing 8) 0 (Some gray_2x2)))
                (length (trace_of
                   (write_png_stream (refusing 8) 0 (Some gray_2x2))) - 2)%nat
        = Some (png_write_png info) /\
      FAILURE = (if refusing 8
                      (length (trace_of
                         (write_png_stream (refusing 8) 0 (Some gray_2x2))) - 2)%nat
                 then SUCCESS else FAILURE)
  | None => FAILURE = FAILURE
  end.
Proof.
  apply (handoff_is_complete (refusing 8) 0 gray_2x2 FAILURE
           (trace_of (write_png_stream (refusing 8) 0 (Some gray_2x2))));
    [vm_compute; discriminate | reflexivity].
Defined.

(** X2 (the write structure is destroyed once).  Every call of
    [write_png_stream] that gets past the first [switch] and returns, with
    either result, has called [png_destroy_write_struct] exactly once, as its
    last call; and it has made no stdio call: the stream stays open. *)
Theorem destroy_once_and_last codec junk img res tr :
  supported (img_color_type img) = true ->
  write_png_stream codec junk (Some img) = Returned res tr ->
  exists pre,
    tr = pre ++ [png_destroy_write_struct] /\
    forallb (fun e => negb (is_destroy e) && negb (is_stdio e)) pre = true.
Proof.
  intros Hm Hrun.
  destruct (write_png_stream_ends _ _ _ _ _ Hrun)
    as [(Hlay & _) | (ct & rs & pre & Hlay & [(info & Hset & -> & _) |
                                              (Hset & -> & _)])].
  - unfold row_layout in Hlay. destruct (img_color_type img); discriminate.
  - destruct (grows_write_setup _ _ _ _ _ _ _ _ Hset) as (new & -> & Hnew).
    exists (new ++ [png_write_png info]). simpl. split.
    + now rewrite <- app_assoc.
    + now rewrite forallb_app, Hnew.
  - destruct (grows_write_setup _ _ _ _ _ _ _ _ Hset) as (new & -> & Hnew).
    exists new. auto.
Qed.

Lemma destroy_once_and_last_witness :
  exists pre,
    trace_of (write_png_stream (refusing 6) 0 (Some gray_2x2))
      = pre ++ [png_destroy_write_struct] /\
    forallb (fun e => negb (is_destroy e) && negb (is_stdio e)) pre = true.
Proof.
  apply (destroy_once_and_last (refusing 6) 0 gray_2x2 FAILURE);
    reflexivity.
Defined.

(** X3 (palette calls are for indexed images).  For an image that is not
    indexed, no call of [write_png_stream] that returns has allocated a
    palette or called [png_set_PLTE]. *)
Theorem no_palette_call codec junk img res tr :
  img_color_type img <> COLOR_TYPE_INDEX ->
  write_png_stream codec junk (Some img) = Returned res tr ->
  forallb (fun e => negb (is_palette_call e)) tr = true.
Proof.
  intros Hm Hrun.
  destruct (write_png_stream_ends _ _ _ _ _ Hrun)
    as [(_ & _ & ->) | (ct & rs & pre & Hlay & [(info & Hset & -> & _) |
                                                (Hset & -> & _)])].
  - reflexivity.
  - destruct (grows_write_setup_no_palette _ _ _ _ _ Hm _ _ _ Hset)
      as (new & -> & Hnew).
    simpl. now rewrite forallb_app, Hnew.
  - destruct (grows_write_setup_no_palette _ _ _ _ _ Hm _ _ _ Hset)
      as (new & -> & Hnew).
    simpl. now rewrite forallb_app, Hnew.
Qed.

Lemma no_palette_call_witness :
  forallb (fun e => negb (is_palette_call e))
    (trace_of (write_png_stream cooperative 0 (Some rgba_2x1))) = true.
Proof.
  apply (no_palette_call cooperative 0 rgba_2x1 SUCCESS);
    [discriminate | reflexivity].
Defined.

(** ** [write_png_file] in terms of [write_png_stream] *)

Lemma shifted_ret {A : Type} pre (v : A) : shifted pre (ret v) (ret v).
Proof. intros tr. reflexivity. Qed.

Lemma shifted_bind {A B : Type} pre (m m' : io A) (k k' : A -> io B) :
  shifted pre m m' -> (forall x, shifted pre (k x) (k' x)) ->
  shifted pre (bind m k) (bind m' k').
Proof.
  intros Hm Hk tr. unfold bind. rewrite Hm.
  destruct (m' tr) as [[x| |] tr1]; try reflexivity. apply Hk.
Qed.

Lemma shifted_emit pre e : shifted pre (emit e) (emit e).
Proof. intros tr. unfold emit. now rewrite app_assoc. Qed.

Lemma shifted_call pre codec e :
  shifted pre (call codec e) (call (shift (length pre) codec) e).
Proof.
  intros tr. unfold call, shift. rewrite length_app.
  destruct (codec (length pre + length tr)%nat); now rewrite app_assoc.
Qed.

Lemma shifted_local {A : Type} pre (m : option A) :
  shifted pre (local m) (local m).
Proof. intros tr. unfold local. destruct m; reflexivity. Qed.

Lemma shifted_png_malloc {A : Type} pre codec e size (junk : A) :
  shifted pre (png_malloc codec e size junk)
              (png_malloc (shift (length pre) codec) e size junk).
Proof.
  intros tr. unfold png_malloc, shift. rewrite length_app.
  destruct ((size <? 0) || negb (codec (length pre + length tr)%nat));
    now rewrite app_assoc.
Qed.

Lemma shifted_alloc_rows pre codec junk row_size n :
  shifted pre (alloc_rows codec junk row_size n)
              (alloc_rows (shift (length pre) codec) junk row_size n).
Proof.
  induction n as [|n IH]; simpl.
  - apply shifted_ret.
  - apply shifted_bind; [apply shifted_png_malloc|]. intros row.
    apply shifted_bind; [assumption|]. intros rest. apply shifted_ret.
Qed.

Ltac shifted_steps :=
  repeat first
    [ apply shifted_ret | apply shifted_local | apply shifted_emit
    | apply shifted_call | apply shifted_png_malloc
    | apply shifted_alloc_rows
    | apply shifted_bind; [|intros ?] ].

Lemma shifted_write_body pre codec junk img color_type row_size :
  shifted pre (write_body codec junk img color_type row_size)
              (write_body (shift (length pre) codec) junk img
                          color_type row_size).
Proof.
  unfold write_body, write_setup. shifted_steps.
  - unfold write_pixels. destruct (img_color_type img); shifted_steps.
  - match goal with x : (_ * _ * _)%type |- _ => destruct x as [[? ?] ?] end.
    apply shifted_ret.
Qed.

(** A call that starts after other calls is the call from an empty trace,
    with the oracle that many calls later. *)
Lemma write_png_stream_from_shift pre codec junk img :
  write_png_stream_from pre codec junk img =
  prepend pre (write_png_stream (shift (length pre) codec) junk img).
Proof.
  unfold write_png_stream, write_png_stream_from.
  destruct img as [img|]; simpl; [|now rewrite app_nil_r].
  destruct (row_layout img) as [[color_type row_size]|]; simpl;
    [|now rewrite app_nil_r].
  rewrite <- (app_nil_r pre) at 1.
  rewrite (shifted_write_body pre codec junk img color_type row_size []).
  destruct (write_body (shift (length pre) codec) junk img color_type
                       row_size []) as [[u| |] tr]; simpl;
    try reflexivity; now rewrite <- app_assoc.
Qed.

(** X4 ([write_png_file] wraps [write_png_stream]).  For an image that is not
    null: when [fopen] fails, [write_png_file] reports it with [perror] and
    returns [FAILURE] without a call to libpng; when it succeeds, the call is
    [fopen], then exactly what [write_png_stream] does on its own (with the
    oracle one call later), then [fclose], whichever result the stream call
    had, and the result is that of the stream call. *)
Theorem write_png_file_wraps codec junk img :
  write_png_file codec junk (Some img) =
  if codec 0%nat then
    followed_by [fclose]
      (prepend [fopen_wb] (write_png_stream (shift 1 codec) junk (Some img)))
  else Returned FAILURE [fopen_wb; perror].
Proof.
  unfold write_png_file. destruct (codec 0%nat); [|reflexivity].
  rewrite write_png_stream_from_shift. simpl.
  destruct (write_png_stream (shift 1 codec) junk (Some img)); reflexivity.
Qed.

(** ** What the result of [write_png_stream] depends on *)

Lemma agree_refl {A : Type} (m : io A) : agree m m.
Proof. intros tr. reflexivity. Qed.

Lemma agree_bind {A B : Type} (m m' : io A) (k k' : A -> io B) :
  agree m m' -> (forall x, agree (k x) (k' x)) -> agree (bind m k) (bind m' k').
Proof.
  intros Hm Hk tr. unfold bind. rewrite Hm.
  destruct (m' tr) as [[x| |] tr1]; try reflexivity. apply Hk.
Qed.

Lemma agree_call codec codec' e :
  (forall k, codec k = codec' k) -> agree (call codec e) (call codec' e).
Proof. intros H tr. unfold call. now rewrite H. Qed.

Lemma agree_png_malloc {A : Type} codec codec' e size (junk : A) :
  (forall k, codec k = codec' k) ->
  agree (png_malloc codec e size junk) (png_malloc codec' e size junk).
Proof. intros H tr. unfold png_malloc. now rewrite H. Qed.

Lemma agree_alloc_rows codec codec' junk row_size n :
  (forall k, codec k = codec' k) ->
  agree (alloc_rows codec junk row_size n) (alloc_rows codec' junk row_size n).
Proof.
  intros H. induction n as [|n IH]; simpl; [apply agree_refl|].
  apply agree_bind; [now apply agree_png_malloc|]. intros row.
  apply agree_bind; [assumption|]. intros rest. apply agree_refl.
Qed.

Ltac agree_steps H :=
  repeat first
    [ apply agree_call; exact H | apply agree_png_malloc; exact H
    | apply agree_alloc_rows; exact H
    | apply agree_bind; [|intros ?]
    | apply agree_refl ].

(** Only the answers of the oracle matter, not the oracle itself. *)
Lemma write_png_stream_oracle codec codec' junk img :
  (forall k, codec k = codec' k) ->
  write_png_stream codec junk img = write_png_stream codec' junk img.
Proof.
  intros H. unfold write_png_stream, write_png_stream_from.
  destruct img as [img|]; [|reflexivity].
  destruct (row_layout img) as [[color_type row_size]|]; [|reflexivity].
  f_equal.
  assert (Ha : agree (write_body codec junk img color_type row_size)
                     (write_body codec' junk img color_type row_size)).
  { unfold write_body, write_setup. agree_steps H.
    unfold write_pixels. destruct (img_color_type img); agree_steps H. }
  apply Ha.
Qed.

Lemma write_rgb_alpha img rows :
  img_color_type img = COLOR_TYPE_RGB ->
  write_rgb (alpha_forced img) rows = write_rgb img rows.
Proof.
  intros Hm. destruct (alpha_forced_fields img) as (Fw & Fh & _).
  unfold write_rgb, for_, rows_of, columns_of. rewrite Fw, Fh.
  apply for_from_ext. intros y rows1 _.
  apply for_from_ext. intros x rows2 _.
  unfold cell_c. rewrite cell_alpha_forced, Hm.
  destruct (cell img y x) as [[v|v|c]|]; reflexivity.
Qed.

Lemma write_body_alpha codec junk img color_type row_size :
  img_color_type img = COLOR_TYPE_RGB ->
  agree (write_body codec junk (alpha_forced img) color_type row_size)
        (write_body codec junk img color_type row_size).
Proof.
  intros Hm.
  destruct (alpha_forced_fields img) as (Fw & Fh & Fm & _).
  unfold write_body, write_setup, rows_of. rewrite Fw, Fh.
  apply agree_bind; [|intros info; apply agree_refl].
  do 7 (apply agree_bind; [apply agree_refl|intros ?]).
  apply agree_bind; [|intros out; apply agree_refl].
  unfold write_pixels. rewrite Fm, Hm.
  apply agree_bind; [|intros rows; apply agree_refl].
  intros tr. now rewrite write_rgb_alpha.
Qed.

Lemma write_png_stream_alpha codec junk img :
  write_png_stream codec junk (Some (alpha_forced img))
  = write_png_stream codec junk (Some img).
Proof.
  destruct (img_color_type img) eqn:Hm;
    try (rewrite alpha_forced_other by congruence; reflexivity).
  destruct (alpha_forced_fields img) as (Fw & _ & Fm & _).
  unfold write_png_stream, write_png_stream_from.
  assert (Hlay : row_layout (alpha_forced img) = row_layout img)
    by (unfold row_layout; now rewrite Fw, Fm).
  rewrite Hlay.
  destruct (row_layout img) as [[color_type row_size]|]; [|reflexivity].
  f_equal. now apply write_body_alpha.
Qed.

(** X5 (alpha plays no part in writing RGB).  Two images that are equal
    modulo the alpha-forcing rule, that is, RGB images that differ at most in
    the alpha of their cells, are written in exactly the same way: the same
    result and the same calls, with the same rows handed to libpng. *)
Theorem encode_ignores_alpha codec junk img1 img2 :
  alpha_forced img1 = alpha_forced img2 ->
  write_png_stream codec junk (Some img1)
  = write_png_stream codec junk (Some img2).
Proof.
  intros H.
  rewrite <- (write_png_stream_alpha codec junk img1),
          <- (write_png_stream_alpha codec junk img2).
  now rewrite H.
Qed.

Lemma encode_ignores_alpha_witness :
  write_png_stream cooperative 0 (Some rgb_1x1_translucent)
  = write_png_stream cooperative 0 (Some rgb_1x1).
Proof.
  apply (encode_ignores_alpha cooperative 0 rgb_1x1_translucent rgb_1x1).
  reflexivity.
Defined.

(** ** The rows of the other colour models *)

(** X6 (gray rows).  Whenever [write_png_stream] returns [SUCCESS] for a gray
    image, the byte at offset [x] of row [y] handed to libpng is the intensity
    of the cell, and a row is exactly [width] bytes long. *)
Theorem encode_gray_bytes codec junk img tr :
  img_color_type img = COLOR_TYPE_GRAY ->
  0 <= img_width img ->
  write_png_stream codec junk (Some img) = Returned SUCCESS tr ->
  exists info,
    handed_off tr = Some info /\
    info_color_type info = PNG_COLOR_TYPE_GRAY /\
    (forall row, In row (info_rows info) ->
       Z.of_nat (length row) = img_width img) /\
    forall y x, (y < rows_of img)%nat -> (x < columns_of img)%nat ->
      exists v, cell img y x = Some (Px_g v) /\
                load2 (info_rows info) y x = Some v.
Proof.
  intros Hm Hw Hrun.
  destruct (write_png_stream_success _ _ _ _ Hrun)
    as (ct & rs & num & pal & rows & Hlay & Hoff & Hrows & Hsz & Hpal).
  eexists. split; [exact Hoff|]. cbn [info_rows info_color_type].
  split; [|split].
  - unfold row_layout in Hlay. rewrite Hm in Hlay. now inversion Hlay.
  - pose proof (handed_rows_shape _ _ _ _ _ Hw Hrun Hoff) as Hs.
    destruct (shape_In _ _ _ Hs) as (_ & Hrow).
    intros row Hin. rewrite (Hrow row Hin), Hm. simpl stride.
    rewrite Z2Nat.id; lia.
  - eapply write_rows_gray; eauto.
Qed.

Lemma encode_gray_bytes_witness :
  exists info,
    handed_off (trace_of (write_png_stream cooperative 0 (Some gray_2x2)))
      = Some info /\
    info_color_type info = PNG_COLOR_TYPE_GRAY /\
    (forall row, In row (info_rows info) ->
       Z.of_nat (length row) = img_width gray_2x2) /\
    forall y x, (y < rows_of gray_2x2)%nat -> (x < columns_of gray_2x2)%nat ->
      exists v, cell gray_2x2 y x = Some (Px_g v) /\
                load2 (info_rows info) y x = Some v.
Proof.
  apply (encode_gray_bytes cooperative 0 gray_2x2);
    [reflexivity | vm_compute; discriminate | reflexivity].
Defined.

(** X7 (RGBA rows).  Whenever [write_png_stream] returns [SUCCESS] for an
    RGBA image, row [y] handed to libpng holds, for every pixel [x], the bytes
    [r], [g], [b], [a] of the cell at offsets [x*4] to [x*4+3], and a row is
    exactly [4 * width] bytes long. *)
Theorem encode_rgba_bytes codec junk img tr :
  img_color_type img = COLOR_TYPE_RGBA ->
  0 <= img_width img ->
  write_png_stream codec junk (Some img) = Returned SUCCESS tr ->
  exists info,
    handed_off tr = Some info /\
    info_color_type info = PNG_COLOR_TYPE_RGB_ALPHA /\
    (forall row, In row (info_rows info) ->
       Z.of_nat (length row) = 4 * img_width img) /\
    forall y x, (y < rows_of img)%nat -> (x < columns_of img)%nat ->
      exists c, cell img y x = Some (Px_c c) /\
        load2 (info_rows info) y (x * 4 + 0) = Some (r c) /\
        load2 (info_rows info) y (x * 4 + 1) = Some (g c) /\
        load2 (info_rows info) y (x * 4 + 2) = Some (b c) /\
        load2 (info_rows info) y (x * 4 + 3) = Some (a c).
Proof.
  intros Hm Hw Hrun.
  destruct (write_png_stream_success _ _ _ _ Hrun)
    as (ct & rs & num & pal & rows & Hlay & Hoff & Hrows & Hsz & Hpal).
  eexists. split; [exact Hoff|]. cbn [info_rows info_color_type].
  split; [|split].
  - unfold row_layout in Hlay. rewrite Hm in Hlay. now inversion Hlay.
  - pose proof (handed_rows_shape _ _ _ _ _ Hw Hrun Hoff) as Hs.
    destruct (shape_In _ _ _ Hs) as (_ & Hrow).
    intros row Hin. rewrite (Hrow row Hin), Hm. simpl stride.
    rewrite Z2Nat.id; lia.
  - eapply write_rows_rgba; eauto.
Qed.

Lemma encode_rgba_bytes_witness :
  exists info,
    handed_off (trace_of (write_png_stream cooperative 0 (Some rgba_2x1)))
      = Some info /\
    info_color_type info = PNG_COLOR_TYPE_RGB_ALPHA /\
    (forall row, In row (info_rows info) ->
       Z.of_nat (length row) = 4 * img_width rgba_2x1) /\
    forall y x, (y < rows_of rgba_2x1)%nat -> (x < columns_of rgba_2x1)%nat ->
      exists c, cell rgba_2x1 y x = Some (Px_c c) /\
        load2 (info_rows info) y (x * 4 + 0) = Some (r c) /\
        load2 (info_rows info) y (x * 4 + 1) = Some (g c) /\
        load2 (info_rows info) y (x * 4 + 2) = Some (b c) /\
        load2 (info_rows info) y (x * 4 + 3) = Some (a c).
Proof.
  apply (encode_rgba_bytes cooperative 0 rgba_2x1);
    [reflexivity | vm_compute; discriminate | reflexivity].
Defined.

(** ** When [write_png_stream] succeeds *)

(** X8 (writing succeeds).  When libpng accepts every call,
    [write_png_stream] returns [SUCCESS], with an image handed to libpng, for
    every valid image of one of the four colour models whose cells hold the
    member of that model and whose rows fit an [int]
    ([width * stride < 2^31]). *)
Theorem write_succeeds codec junk img :
  (forall k, codec k = true) ->
  valid_image img = true ->
  typed_cells img = true ->
  supported (img_color_type img) = true ->
  img_width img * stride (img_color_type img) < 2 ^ 31 ->
  exists tr info,
    write_png_stream codec junk (Some img) = Returned SUCCESS tr /\
    handed_off tr = Some info.
Proof.
  intros Hc Hvalid Htyped Hm Hfit.
  rewrite (write_png_stream_oracle codec cooperative) by exact Hc.
  now apply write_png_stream_returns.
Qed.

Lemma write_succeeds_witness :
  exists tr info,
    write_png_stream (fun k => Nat.eqb k k) 0 (Some index_2x1)
      = Returned SUCCESS tr /\
    handed_off tr = Some info.
Proof.
  apply (write_succeeds (fun k => Nat.eqb k k) 0 index_2x1);
    [intros k; apply Nat.eqb_refl | reflexivity | reflexivity | reflexivity
    | vm_compute; reflexivity].
Defined.

Lemma int_of_range z : - 2 ^ 31 <= int_of z < 2 ^ 31.
Proof.
  unfold int_of.
  assert (Hb : 0 <= (z + 2 ^ 31) mod 2 ^ 32 < 2 ^ 32)
    by (apply Z.mod_pos_bound; lia).
  lia.
Qed.

(** X9 (what success needs).  A call of [write_png_stream] that returned
    [SUCCESS] for an image of non-negative width and positive height had an
    image of one of the four colour models, and its [row_size] did not wrap:
    [width * stride < 2^31], so that the [int] that the first [switch]
    computes, and that [png_malloc] is given for each row, is the number of
    bytes that the loops store into the row. *)
Theorem success_needs codec junk img tr :
  0 <= img_width img -> 0 < img_height img ->
  write_png_stream codec junk (Some img) = Returned SUCCESS tr ->
  supported (img_color_type img) = true /\
  img_width img * stride (img_color_type img) < 2 ^ 31 /\
  exists color_type,
    row_layout img
      = Some (color_type, img_width img * stride (img_color_type img)).
Proof.
  intros Hw Hh Hrun.
  destruct (write_png_stream_success _ _ _ _ Hrun)
    as (ct & rs & num & pal & rows & Hlay & Hoff & Hrows & Hsz & Hpal).
  assert (Hm : supported (img_color_type img) = true).
  { unfold row_layout in Hlay. destruct (img_color_type img);
      [reflexivity..|discriminate]. }
  assert (Hh' : rows_of img <> 0%nat) by (unfold rows_of; lia).
  assert (Hfit : img_width img * stride (img_color_type img) < 2 ^ 31).
  { pose proof (write_rows_fit junk img ct rs rows Hw Hlay Hsz Hrows Hh') as Hf.
    destruct (row_layout_stride _ _ _ Hlay) as (-> & _).
    rewrite Z2Nat.id in Hf by auto.
    pose proof (int_of_range (img_width img * stride (img_color_type img))).
    lia. }
  split; [exact Hm|]. split; [exact Hfit|].
  exists ct. rewrite Hlay. do 2 f_equal.
  destruct (row_layout_stride _ _ _ Hlay) as (-> & Hk).
  apply int_of_small. split; [apply Z.mul_nonneg_nonneg; lia | exact Hfit].
Qed.

Lemma success_needs_witness :
  supported (img_color_type rgba_2x1) = true /\
  img_width rgba_2x1 * stride (img_color_type rgba_2x1) < 2 ^ 31 /\
  exists color_type,
    row_layout rgba_2x1
      = Some (color_type,
              img_width rgba_2x1 * stride (img_color_type rgba_2x1)).
Proof.
  apply (success_needs cooperative 0 rgba_2x1
           (trace_of (write_png_stream cooperative 0 (Some rgba_2x1))));
    [vm_compute; discriminate | reflexivity | reflexivity].
Defined.

(** ** Blocks that are not initialised *)

Lemma grid_index k w i :
  (0 < k)%nat -> (i < w * k)%nat ->
  exists x j, (x < w)%nat /\ (j < k)%nat /\ i = (x * k + j)%nat.
Proof.
  intros Hk Hi. exists (i / k)%nat, (i mod k)%nat.
  split; [apply Nat.Div0.div_lt_upper_bound; lia|].
  split; [apply Nat.mod_upper_bound; lia|].
  rewrite (Nat.div_mod_eq i k) at 1. lia.
Qed.

Lemma packed_fun img s p v v' :
  packed img s p v -> packed img s p v' -> v = v'.
Proof.
  unfold packed. destruct (img_color_type img); intros H H'.
  - congruence.
  - congruence.
  - destruct H as (x & c & Hc & H), H' as (x' & c' & Hc' & H').
    destruct H as [[E ->]|[[E ->]|[E ->]]],
             H' as [[E' ->]|[[E' ->]|[E' ->]]];
      try lia; assert (x' = x) by lia; subst x'; congruence.
  - destruct H as (x & c & Hc & H), H' as (x' & c' & Hc' & H').
    destruct H as [[E ->]|[[E ->]|[[E ->]|[E ->]]]],
             H' as [[E' ->]|[[E' ->]|[[E' ->]|[E' ->]]]];
      try lia; assert (x' = x) by lia; subst x'; congruence.
  - destruct H.
Qed.

Lemma stride_nat_pos m :
  supported m = true -> (0 < Z.to_nat (stride m))%nat.
Proof. destruct m; simpl; intros H; try discriminate; lia. Qed.

(** The filled rows do not depend on what the rows held before. *)
Lemma written_rows_unique img rows1 rows2 rows1' rows2' :
  supported (img_color_type img) = true ->
  write_rows img rows1 = Some rows1' ->
  write_rows img rows2 = Some rows2' ->
  shape rows1
    = repeat (columns_of img * Z.to_nat (stride (img_color_type img)))%nat
             (rows_of img) ->
  shape rows2 = shape rows1 ->
  rows1' = rows2'.
Proof.
  intros Hm E1 E2 Hs1 Hs2.
  destruct (write_rows_sound _ _ _ E1) as (S1 & V1).
  destruct (write_rows_sound _ _ _ E2) as (S2 & V2).
  rewrite Hs1 in S1. rewrite Hs2, Hs1 in S2.
  apply table_ext; [congruence|]. intros y i.
  destruct (Nat.lt_ge_cases y (rows_of img)) as [Hy|Hy];
    [destruct (Nat.lt_ge_cases i
                 (columns_of img * Z.to_nat (stride (img_color_type img))))
       as [Hi|Hi]|].
  - destruct (grid_index _ _ _ (stride_nat_pos _ Hm) Hi)
      as (x & j & Hx & Hj & ->).
    destruct (V1 y x j Hy Hx Hj) as (v1 & P1 & ->).
    destruct (V2 y x j Hy Hx Hj) as (v2 & P2 & ->).
    f_equal. eapply packed_fun; eauto.
  - rewrite (load2_outside _ _ _ y i S1), (load2_outside _ _ _ y i S2); auto.
  - rewrite (load2_outside _ _ _ y i S1), (load2_outside _ _ _ y i S2); auto.
Qed.

(** X10 (no uninitialised byte reaches libpng).  The rows and the palette that
    [write_png_stream] allocates are not initialised.  Two successful calls
    for the same image of non-negative width hand the same image to libpng,
    whatever the fresh blocks held and whatever oracle let them succeed. *)
Theorem handed_image_ignores_junk codec1 codec2 junk1 junk2 img tr1 tr2 :
  0 <= img_width img ->
  write_png_stream codec1 junk1 (Some img) = Returned SUCCESS tr1 ->
  write_png_stream codec2 junk2 (Some img) = Returned SUCCESS tr2 ->
  handed_off tr1 = handed_off tr2 /\ handed_off tr1 <> None.
Proof.
  intros Hw H1 H2.
  destruct (write_png_stream_success _ _ _ _ H1)
    as (ct & rs & n1 & p1 & r1 & Hlay & Hoff1 & Hr1 & Hsz & Hp1).
  destruct (write_png_stream_success _ _ _ _ H2)
    as (ct' & rs' & n2 & p2 & r2 & Hlay' & Hoff2 & Hr2 & _ & Hp2).
  rewrite Hlay in Hlay'. inversion Hlay'; subst ct' rs'. clear Hlay'.
  rewrite Hoff1, Hoff2. split; [|discriminate].
  assert (Hm : supported (img_color_type img) = true).
  { unfold row_layout in Hlay. destruct (img_color_type img);
      [reflexivity..|discriminate]. }
  assert (Hpal : n1 = n2 /\ p1 = p2).
  { unfold palette_handed in Hp1, Hp2. destruct (img_color_type img).
    - destruct Hp1 as (-> & _ & E1), Hp2 as (-> & _ & E2).
      apply write_palette_sound in E1, E2.
      destruct E1 as (_ & ->), E2 as (_ & ->). auto.
    - destruct Hp1 as (-> & ->), Hp2 as (-> & ->). auto.
    - destruct Hp1 as (-> & ->), Hp2 as (-> & ->). auto.
    - destruct Hp1 as (-> & ->), Hp2 as (-> & ->). auto.
    - destruct Hp1 as (-> & ->), Hp2 as (-> & ->). auto. }
  destruct Hpal as (-> & ->).
  assert (Hrows : r1 = r2).
  { destruct (Nat.eq_dec (rows_of img) 0) as [Hh|Hh].
    - rewrite Hh in Hr1, Hr2. simpl in Hr1, Hr2. congruence.
    - eapply written_rows_unique; eauto.
      + rewrite shape_repeat, repeat_length. f_equal.
        pose proof (write_rows_fit junk1 img ct rs r1 Hw Hlay Hsz Hr1 Hh) as Hf.
        destruct (row_layout_stride _ _ _ Hlay) as (_ & Hk).
        unfold columns_of. rewrite <- Z2Nat.inj_mul by lia.
        rewrite <- Hf. now rewrite Nat2Z.id.
      + now rewrite !shape_repeat, !repeat_length. }
  now rewrite Hrows.
Qed.

Lemma handed_image_ignores_junk_witness :
  handed_off (trace_of (write_png_stream cooperative 0 (Some index_2x1)))
  = handed_off (trace_of (write_png_stream (fun _ => true) 77
                            (Some index_2x1))) /\
  handed_off (trace_of (write_png_stream cooperative 0 (Some index_2x1)))
  <> None.
Proof.
  apply (handed_image_ignores_junk cooperative (fun _ => true) 0 77 index_2x1);
    [vm_compute; discriminate | reflexivity | reflexivity].
Defined.

(** ** When the [switch] of [read_png_stream] returns an image *)

Lemma read_palette_sound src n :
  forall i pal p,
    for_from i n (read_palette_pure src) pal = Some p ->
    length pal = i ->
    p = pal ++ map of_png_color (firstn n (skipn i src)) /\
    (n <> 0%nat -> (i + n <= length src)%nat /\ (i + n <= 256)%nat).
Proof.
  induction n as [|n IH]; intros i pal p H Hlen; simpl in H.
  - inversion H; subst. rewrite app_nil_r. split; [reflexivity|congruence].
  - unfold read_palette_pure at 1 in H.
    destruct (nth_error src i) as [pc|] eqn:Epc; [|discriminate].
    assert (Hi : (i < length src)%nat)
      by (apply nth_error_Some; congruence).
    unfold palette_store in H. rewrite Hlen in H.
    destruct (Nat.ltb_spec i i); [lia|].
    rewrite Nat.eqb_refl in H.
    destruct (Nat.ltb_spec i 256); [|discriminate]. simpl in H.
    apply IH in H; [|rewrite length_app; simpl; lia].
    destruct H as (-> & Hb). split.
    + rewrite (skipn_nth_error _ _ _ Epc). simpl.
      now rewrite <- app_assoc.
    + intros _. destruct n as [|n]; [lia|].
      destruct Hb as (Hb1 & Hb2); [congruence|]. lia.
Qed.







Lemma allocate_image_None hp w h m :
  allocate_image hp w h m = None <-> w <= 0 \/ h <= 0 \/ heap_ok hp = false.
Proof.
  unfold allocate_image. split.
  - destruct (w <=? 0) eqn:Hw; [left; now apply Z.leb_le|].
    destruct (h <=? 0) eqn:Hh; [right; left; now apply Z.leb_le|].
    destruct (heap_ok hp); simpl; [discriminate|auto].
  - intros [Hx|[Hx|Hx]].
    + apply Z.leb_le in Hx. now rewrite Hx.
    + apply Z.leb_le in Hx. now rewrite Hx, orb_true_r.
    + rewrite Hx. simpl. now rewrite orb_true_r.
Qed.

Lemma decode_rows_null hp info :
  decode_rows hp info = Value (None, info) <->
  model_of (info_color_type info) = None \/
  info_width info <= 0 \/ info_height info <= 0 \/ heap_ok hp = false.
Proof.
  rewrite decode_rows_model.
  destruct (model_of (info_color_type info)) as [m|]; [|intuition].
  unfold read_case.
  destruct (allocate_image hp _ _ m) as [img0|] eqn:Ea.
  - split.
    + intros H. destruct (read_fill m _); discriminate.
    + intros [H|H]; [discriminate|].
      apply (proj2 (allocate_image_None hp _ _ m)) in H. congruence.
  - split; [|reflexivity]. intros _. right.
    now apply (proj1 (allocate_image_None hp _ _ m)) in Ea.
Qed.

(** X12 (when reading returns [NULL]).  The [switch] returns no image, and
    stays clear of undefined behaviour, exactly when the colour type is none
    of the four it has a case for (it has no [default]) or the image cannot be
    allocated; then [read_png_stream] returns [NULL] as well. *)
Theorem decode_returns_null_iff hp info :
  (decode_rows hp info = Value (None, info) <->
   model_of (info_color_type info) = None \/
   info_width info <= 0 \/ info_height info <= 0 \/ heap_ok hp = false) /\
  (decode_rows hp info = Value (None, info) ->
   forall fp, read_png fp = Some info -> read_png_stream hp fp = Value None).
Proof.
  split; [apply decode_rows_null|].
  intros Hd fp Hfp. unfold read_png_stream. rewrite Hfp, Hd.
  destruct (signature_ok fp), (read_struct_ok fp), (read_info_ok fp);
    reflexivity.
Qed.

Lemma decode_returns_null_iff_witness :
  decode_rows roomy gray_alpha_info = Value (None, gray_alpha_info).
Proof.
  apply (proj2 (proj1 (decode_returns_null_iff roomy gray_alpha_info))).
  left. reflexivity.
Defined.



(** ** The cells of the other colour models *)

(** X14 (decoding gray).  When the [switch] returns an image for the colour
    type [PNG_COLOR_TYPE_GRAY], the image is gray, has the dimensions of
    [info] and no palette, and the cell at row [y], column [x] holds as
    intensity the byte at offset [x] of row [y]. *)
Theorem decode_gray_cells hp info img info' :
  info_color_type info = PNG_COLOR_TYPE_GRAY ->
  decode_rows hp info = Value (Some img, info') ->
  img_color_type img = COLOR_TYPE_GRAY /\
  img_width img = info_width info /\ img_height img = info_height info /\
  img_palette_num img = 0 /\ img_palette img = [] /\
  forall y x,
    (y < Z.to_nat (info_height info))%nat ->
    (x < Z.to_nat (info_width info))%nat ->
    exists v, load2 (info_rows info) y x = Some v /\
              cell img y x = Some (Px_g v).
Proof.
  intros Hct Hdec. apply decode_rows_sound in Hdec.
  destruct Hdec as (m & Hmod & _ & _ & _ & _ & Hw & Hh & Hm & Hp & _ & Hcells).
  assert (Hmm : m = COLOR_TYPE_GRAY) by (rewrite Hct in Hmod; now inversion Hmod).
  rewrite Hmm in Hm, Hp, Hcells. clear Hmm Hmod m.
  unfold palette_decoded in Hp. destruct Hp as (Hn & Hpal).
  repeat split; try assumption.
  intros y x Hy Hx. destruct (Hcells y x Hy Hx) as (v & (v0 & E & ->) & Hc).
  eauto.
Qed.

Lemma decode_gray_cells_witness :
  img_color_type gray_2x2 = COLOR_TYPE_GRAY /\
  img_width gray_2x2 = info_width gray_2x2_info /\
  img_height gray_2x2 = info_height gray_2x2_info /\
  img_palette_num gray_2x2 = 0 /\ img_palette gray_2x2 = [] /\
  forall y x,
    (y < Z.to_nat (info_height gray_2x2_info))%nat ->
    (x < Z.to_nat (info_width gray_2x2_info))%nat ->
    exists v, load2 (info_rows gray_2x2_info) y x = Some v /\
              cell gray_2x2 y x = Some (Px_g v).
Proof.
  apply (decode_gray_cells stale gray_2x2_info gray_2x2 gray_2x2_info);
    reflexivity.
Defined.

(** X15 (decoding RGBA).  When the [switch] returns an image for the colour
    type [PNG_COLOR_TYPE_RGB_ALPHA], the image is RGBA, has the dimensions of
    [info] and no palette, and the cell at row [y], column [x] holds in [r],
    [g], [b], [a] the bytes at offsets [x*4] to [x*4+3] of row [y]: the alpha
    is the one of the row, not forced. *)
Theorem decode_rgba_cells hp info img info' :
  info_color_type info = PNG_COLOR_TYPE_RGB_ALPHA ->
  decode_rows hp info = Value (Some img, info') ->
  img_color_type img = COLOR_TYPE_RGBA /\
  img_width img = info_width info /\ img_height img = info_height info /\
  img_palette_num img = 0 /\ img_palette img = [] /\
  forall y x,
    (y < Z.to_nat (info_height info))%nat ->
    (x < Z.to_nat (info_width info))%nat ->
    exists v0 v1 v2 v3,
      load2 (info_rows info) y (x * 4 + 0) = Some v0 /\
      load2 (info_rows info) y (x * 4 + 1) = Some v1 /\
      load2 (info_rows info) y (x * 4 + 2) = Some v2 /\
      load2 (info_rows info) y (x * 4 + 3) = Some v3 /\
      cell img y x = Some (Px_c {| r := v0; g := v1; b := v2; a := v3 |}).
Proof.
  intros Hct Hdec. apply decode_rows_sound in Hdec.
  destruct Hdec as (m & Hmod & _ & _ & _ & _ & Hw & Hh & Hm & Hp & _ & Hcells).
  assert (Hmm : m = COLOR_TYPE_RGBA) by (rewrite Hct in Hmod; now inversion Hmod).
  rewrite Hmm in Hm, Hp, Hcells. clear Hmm Hmod m.
  unfold palette_decoded in Hp. destruct Hp as (Hn & Hpal).
  repeat split; try assumption.
  intros y x Hy Hx. destruct (Hcells y x Hy Hx) as (v & Hv & Hc).
  destruct Hv as (v0 & v1 & v2 & v3 & E0 & E1 & E2 & E3 & ->).
  exists v0, v1, v2, v3. auto.
Qed.

Lemma decode_rgba_cells_witness :
  img_color_type rgba_2x1 = COLOR_TYPE_RGBA /\
  img_width rgba_2x1 = info_width rgba_2x1_info /\
  img_height rgba_2x1 = info_height rgba_2x1_info /\
  img_palette_num rgba_2x1 = 0 /\ img_palette rgba_2x1 = [] /\
  forall y x,
    (y < Z.to_nat (info_height rgba_2x1_info))%nat ->
    (x < Z.to_nat (info_width rgba_2x1_info))%nat ->
    exists v0 v1 v2 v3,
      load2 (info_rows rgba_2x1_info) y (x * 4 + 0) = Some v0 /\
      load2 (info_rows rgba_2x1_info) y (x * 4 + 1) = Some v1 /\
      load2 (info_rows rgba_2x1_info) y (x * 4 + 2) = Some v2 /\
      load2 (info_rows rgba_2x1_info) y (x * 4 + 3) = Some v3 /\
      cell rgba_2x1 y x
        = Some (Px_c {| r := v0; g := v1; b := v2; a := v3 |}).
Proof.
  apply (decode_rgba_cells roomy rgba_2x1_info rgba_2x1 rgba_2x1_info);
    reflexivity.
Defined.

(** The palette of a decoded indexed image. *)
Lemma decoded_palette info num p :
  palette_decoded COLOR_TYPE_INDEX info num p ->
  num = info_num_palette info /\
  p = map of_png_color
        (firstn (Z.to_nat (info_num_palette info)) (info_palette info)) /\
  length p = Z.to_nat (info_num_palette info) /\
  (Z.to_nat (info_num_palette info) <= 256)%nat.
Proof.
  unfold palette_decoded. intros (Hn & Hp).
  apply read_palette_sound in Hp; [|reflexivity].
  destruct Hp as (-> & Hb). simpl.
  split; [assumption|]. split; [reflexivity|].
  destruct (Nat.eq_dec (Z.to_nat (info_num_palette info)) 0) as [E|E].
  - rewrite E. simpl. split; [reflexivity|lia].
  - destruct (Hb E) as (H1 & H2). simpl in H1, H2.
    rewrite length_map, length_firstn. lia.
Qed.

(** X16 (decoding an indexed image).  When the [switch] returns an image for
    the colour type [PNG_COLOR_TYPE_PALETTE], the image is indexed, its
    [palette_num] is [num_palette], its palette table is the first
    [num_palette] entries of the palette of [info], converted with
    [color_from_rgb], in order, at most 256 of them, and the cell at row [y],
    column [x] holds as index the byte at offset [x] of row [y], whether or
    not that index is below [palette_num]. *)
Theorem decode_index_cells hp info img info' :
  info_color_type info = PNG_COLOR_TYPE_PALETTE ->
  decode_rows hp info = Value (Some img, info') ->
  img_color_type img = COLOR_TYPE_INDEX /\
  img_palette_num img = info_num_palette info /\
  img_palette img
    = map of_png_color
        (firstn (Z.to_nat (info_num_palette info)) (info_palette info)) /\
  length (img_palette img) = Z.to_nat (info_num_palette info) /\
  (length (img_palette img) <= 256)%nat /\
  forall y x,
    (y < Z.to_nat (info_height info))%nat ->
    (x < Z.to_nat (info_width info))%nat ->
    exists v, load2 (info_rows info) y x = Some v /\
              cell img y x = Some (Px_i v).
Proof.
  intros Hct Hdec. apply decode_rows_sound in Hdec.
  destruct Hdec as (m & Hmod & _ & _ & _ & _ & Hw & Hh & Hm & Hp & _ & Hcells).
  assert (Hmm : m = COLOR_TYPE_INDEX) by (rewrite Hct in Hmod; now inversion Hmod).
  rewrite Hmm in Hm, Hp, Hcells. clear Hmm Hmod m.
  apply decoded_palette in Hp. destruct Hp as (Hn & Hpal & Hlen & Hcap).
  repeat split; try assumption; try lia.
  intros y x Hy Hx. destruct (Hcells y x Hy Hx) as (v & (v0 & E & ->) & Hc).
  eauto.
Qed.

Lemma decode_index_cells_witness :
  img_color_type index_2x1 = COLOR_TYPE_INDEX /\
  img_palette_num index_2x1 = info_num_palette index_2x1_info /\
  img_palette index_2x1
    = map of_png_color
        (firstn (Z.to_nat (info_num_palette index_2x1_info))
                (info_palette index_2x1_info)) /\
  length (img_palette index_2x1)
    = Z.to_nat (info_num_palette index_2x1_info) /\
  (length (img_palette index_2x1) <= 256)%nat /\
  forall y x,
    (y < Z.to_nat (info_height index_2x1_info))%nat ->
    (x < Z.to_nat (info_width index_2x1_info))%nat ->
    exists v, load2 (info_rows index_2x1_info) y x = Some v /\
              cell index_2x1 y x = Some (Px_i v).
Proof.
  apply (decode_index_cells roomy index_2x1_info index_2x1 index_2x1_info);
    reflexivity.
Defined.

(** ** Decoded images are valid *)

Lemma valid_image_intro img :
  0 < img_width img -> 0 < img_height img ->
  shape (img_map img) = repeat (columns_of img) (rows_of img) ->
  match img_color_type img with
  | COLOR_TYPE_INDEX =>
      img_palette_num img = Z.of_nat (length (img_palette img)) /\
      img_palette_num img <= 256
  | _ => img_palette_num img = 0 /\ img_palette img = []
  end ->
  valid_image img = true.
Proof.
  intros Hw Hh Hs Hp. unfold valid_image.
  destruct (shape_In _ _ _ Hs) as (Hlen & Hrow).
  rewrite !andb_true_iff. repeat split.
  - now apply Z.ltb_lt.
  - now apply Z.ltb_lt.
  - now apply Nat.eqb_eq.
  - apply forallb_forall. intros row Hin. apply Nat.eqb_eq. now apply Hrow.
  - destruct (img_color_type img); destruct Hp as (Hn & Hpal);
      rewrite andb_true_iff; split;
      try (now apply Z.eqb_eq); try (now rewrite Hpal).
    now apply Z.leb_le.
Qed.

Lemma forallb_cells {A : Type} (f : A -> bool) (t : list (list A)) :
  (forall y x p, load2 t y x = Some p -> f p = true) ->
  forallb (forallb f) t = true.
Proof.
  intros H. apply forallb_forall. intros row Hrow.
  apply forallb_forall. intros p Hp.
  destruct (In_nth_error _ _ Hrow) as (y & Ey).
  destruct (In_nth_error _ _ Hp) as (x & Ex).
  apply (H y x). unfold load2. now rewrite Ey.
Qed.

Lemma cell_from_active m rows y x v :
  cell_from m rows y x v -> active m v = true.
Proof.
  unfold cell_from. destruct m; intros H.
  - now destruct H as (v0 & _ & ->).
  - now destruct H as (v0 & _ & ->).
  - now destruct H as (v0 & v1 & v2 & _ & _ & _ & ->).
  - now destruct H as (v0 & v1 & v2 & v3 & _ & _ & _ & _ & ->).
  - destruct H.
Qed.

Lemma decoded_valid hp info img info' :
  0 <= info_num_palette info ->
  decode_rows hp info = Value (Some img, info') ->
  valid_image img = true /\ typed_cells img = true /\
  supported (img_color_type img) = true.
Proof.
  intros Hnum Hdec. apply decode_rows_sound in Hdec.
  destruct Hdec
    as (m & Hmod & _ & _ & Hw & Hh & Ew & Eh & Hm & Hp & Hs & Hcells).
  pose proof (model_of_supported _ _ Hmod) as Hsup.
  split; [|split].
  - apply valid_image_intro.
    + now rewrite Ew.
    + now rewrite Eh.
    + unfold columns_of, rows_of. now rewrite Ew, Eh.
    + rewrite Hm. destruct m; try exact Hp.
      apply decoded_palette in Hp. destruct Hp as (-> & _ & Hlen & Hcap).
      rewrite Hlen. split; [now rewrite Z2Nat.id|lia].
  - unfold typed_cells. apply forallb_cells. intros y x p Hc.
    destruct (cell_inside img _ _ y x p Hs Hc) as (Hy & Hx).
    destruct (Hcells y x Hy Hx) as (v & Hv & Hc').
    unfold cell in Hc'. rewrite Hc in Hc'. inversion Hc'; subst v.
    rewrite Hm. eapply cell_from_active; eauto.
  - now rewrite Hm.
Qed.

(** X17 (a decoded image is valid).  Every image that the [switch] returns,
    for a palette count that is not negative, satisfies the invariants of a
    typed image: positive dimensions, [height] rows of [width] cells, a
    palette with its count of entries, at most 256, for an indexed image
    only; and every cell holds the member of the colour model. *)
Theorem decoded_image_is_valid hp info img info' :
  0 <= info_num_palette info ->
  decode_rows hp info = Value (Some img, info') ->
  valid_image img = true /\ typed_cells img = true /\
  supported (img_color_type img) = true.
Proof. apply decoded_valid. Qed.

Lemma decoded_image_is_valid_witness :
  valid_image index_2x1 = true /\ typed_cells index_2x1 = true /\
  supported (img_color_type index_2x1) = true.
Proof.
  apply (decoded_image_is_valid roomy index_2x1_info index_2x1 index_2x1_info);
    [vm_compute; discriminate | reflexivity].
Defined.

(** ** Reading, then writing *)

Lemma png_info_ext (i1 i2 : png_info) :
  info_width i1 = info_width i2 -> info_height i1 = info_height i2 ->
  info_color_type i1 = info_color_type i2 ->
  info_num_palette i1 = info_num_palette i2 ->
  info_palette i1 = info_palette i2 -> info_rows i1 = info_rows i2 ->
  i1 = i2.
Proof.
  destruct i1, i2. simpl. intros; subst; reflexivity.
Qed.

Lemma model_of_inj c1 c2 m :
  model_of c1 = Some m -> model_of c2 = Some m -> c1 = c2.
Proof.
  unfold model_of.
  repeat match goal with
         | |- context [?x =? ?y] => destruct (Z.eqb_spec x y)
         end; intros H1 H2; congruence.
Qed.

Lemma to_of_png_color pal : map to_png_color (map of_png_color pal) = pal.
Proof.
  rewrite map_map. rewrite <- (map_id pal) at 2. apply map_ext.
  intros [pr pg pb]. reflexivity.
Qed.

(** The byte written for a decoded cell is the byte it was decoded from. *)
Lemma packed_decoded img rows y x j v c :
  cell img y x = Some c ->
  cell_from (img_color_type img) rows y x c ->
  (j < Z.to_nat (stride (img_color_type img)))%nat ->
  packed img [] (y, (x * Z.to_nat (stride (img_color_type img)) + j)%nat) v ->
  load2 rows y (x * Z.to_nat (stride (img_color_type img)) + j) = Some v.
Proof.
  unfold packed, cell_from. intros Hc Hf Hj Hp.
  simpl fst in Hp. simpl snd in Hp.
  destruct (img_color_type img) eqn:Hm.
  - change (Z.to_nat (stride COLOR_TYPE_INDEX)) with 1%nat in *.
    assert (j = 0%nat) by lia. subst j.
    replace (x * 1 + 0)%nat with x in * by lia.
    destruct Hf as (v0 & E & ->). unfold cell_i in Hp. rewrite Hc in Hp.
    simpl in Hp. congruence.
  - change (Z.to_nat (stride COLOR_TYPE_GRAY)) with 1%nat in *.
    assert (j = 0%nat) by lia. subst j.
    replace (x * 1 + 0)%nat with x in * by lia.
    destruct Hf as (v0 & E & ->). unfold cell_g in Hp. rewrite Hc in Hp.
    simpl in Hp. congruence.
  - change (Z.to_nat (stride COLOR_TYPE_RGB)) with 3%nat in *.
    destruct Hf as (v0 & v1 & v2 & E0 & E1 & E2 & ->).
    destruct Hp as (x' & c' & Hc' & Hcase). unfold cell_c in Hc'.
    destruct Hcase as [[E ->]|[[E ->]|[E ->]]];
      assert (x' = x) by lia; subst x'; rewrite Hc in Hc'; simpl in Hc';
      inversion Hc'; subst c'; simpl;
      [assert (j = 0%nat) by lia | assert (j = 1%nat) by lia
       | assert (j = 2%nat) by lia]; subst j; assumption.
  - change (Z.to_nat (stride COLOR_TYPE_RGBA)) with 4%nat in *.
    destruct Hf as (v0 & v1 & v2 & v3 & E0 & E1 & E2 & E3 & ->).
    destruct Hp as (x' & c' & Hc' & Hcase). unfold cell_c in Hc'.
    destruct Hcase as [[E ->]|[[E ->]|[[E ->]|[E ->]]]];
      assert (x' = x) by lia; subst x'; rewrite Hc in Hc'; simpl in Hc';
      inversion Hc'; subst c'; simpl;
      [assert (j = 0%nat) by lia | assert (j = 1%nat) by lia
       | assert (j = 2%nat) by lia | assert (j = 3%nat) by lia];
      subst j; assumption.
  - destruct Hf.
Qed.

(** X18 (reading, then writing).  Let [info] be as [write_png_stream] hands
    images over (rows of exactly the stride, a palette of exactly its count)
    with rows that fit an [int].  If the [switch] of [read_png_stream] returns
    an image for it, then writing that image, when libpng accepts every call,
    returns [SUCCESS] and hands exactly [info] back to libpng. *)
Theorem read_then_write hp codec junk info m img :
  packed_info m info ->
  info_width info * stride m < 2 ^ 31 ->
  (forall k, codec k = true) ->
  decode_rows hp info = Value (Some img, info) ->
  exists tr,
    write_png_stream codec junk (Some img) = Returned SUCCESS tr /\
    handed_off tr = Some info.
Proof.
  intros (Hmod & Hw & Hh & Hshape & Hpal) Hfit Hcodec Hdec.
  assert (Hnum : 0 <= info_num_palette info).
  { destruct m; destruct Hpal as (Hn & _); lia. }
  destruct (decoded_valid _ _ _ _ Hnum Hdec) as (Hvalid & Htyped & Hsup).
  apply decode_rows_sound in Hdec.
  destruct Hdec
    as (m' & Hmod' & _ & _ & _ & _ & Ew & Eh & Hm & Hp & Hs & Hcells).
  assert (Hmm : m' = m) by congruence.
  rewrite Hmm in Hm, Hp, Hcells. clear Hmm Hmod' m'.
  destruct (write_png_stream_returns junk img Hvalid Htyped Hsup)
    as (tr & info0 & Hrun & Hoff0); [now rewrite Ew, Hm|].
  exists tr. split; [now rewrite (write_png_stream_oracle codec cooperative)|].
  destruct (write_png_stream_success _ _ _ _ Hrun)
    as (ct & rs & num' & pal' & rows' & Hlay & Hoff & Hrows & _ & Hph).
  assert (Hrs : shape rows' = shape (info_rows info)).
  { assert (Hw' : 0 <= img_width img) by (rewrite Ew; lia).
    pose proof (handed_rows_shape _ _ _ _ _ Hw' Hrun Hoff) as Hrs.
    simpl in Hrs. rewrite Hrs, Hshape, Hm, Ew. unfold rows_of. rewrite Eh.
    f_equal. apply Z2Nat.inj_mul; [lia|]. destruct m; simpl; lia. }
  rewrite Hoff. f_equal. apply png_info_ext; simpl.
  - exact Ew.
  - exact Eh.
  - apply (model_of_inj _ _ m); [|assumption].
    rewrite <- Hm. eapply row_layout_model; eauto.
  - unfold palette_handed in Hph. rewrite Hm in Hph.
    unfold palette_decoded in Hp.
    destruct m; destruct Hph as (-> & Hph), Hp as (Hp1 & Hp2),
                         Hpal as (Hn & Hq); congruence.
  - unfold palette_handed in Hph. rewrite Hm in Hph.
    destruct m; try (destruct Hph as (_ & ->), Hpal as (_ & ->); reflexivity).
    apply decoded_palette in Hp. destruct Hp as (Hp1 & Hp2 & _).
    destruct Hph as (_ & _ & Hph), Hpal as (Hn & _).
    apply write_palette_sound in Hph. destruct Hph as (_ & ->).
    rewrite Hp2, Hp1, Hn, Nat2Z.id, !firstn_all.
    rewrite <- (length_map of_png_color), firstn_all.
    apply to_of_png_color.
  - apply table_ext; [exact Hrs|]. intros y i.
    set (k := Z.to_nat (stride m)) in *.
    destruct (Nat.lt_ge_cases y (Z.to_nat (info_height info))) as [Hy|Hy];
      [destruct (Nat.lt_ge_cases i (Z.to_nat (info_width info) * k))
         as [Hi|Hi]|].
    + assert (Hk : (0 < k)%nat)
        by (apply stride_nat_pos; now rewrite <- Hm).
      destruct (grid_index k _ i Hk Hi) as (x & j & Hx & Hj & ->).
      destruct (write_rows_sound _ _ _ Hrows) as (_ & Hv).
      destruct (Hcells y x Hy Hx) as (c & Hc & Hcell).
      destruct (Hv y x j) as (v & Hpk & Hl);
        unfold rows_of, columns_of; rewrite ?Hm, ?Ew, ?Eh; try assumption.
      rewrite Hm in Hl, Hpk. fold k in Hl. rewrite Hl. symmetry.
      pose proof (packed_decoded img (info_rows info) y x j v c Hcell) as Hd.
      rewrite Hm in Hd. apply Hd; assumption.
    + rewrite (load2_outside _ _ _ y i Hshape) by (right; exact Hi).
      apply (load2_outside _ (Z.to_nat (info_width info) * k)
                           (Z.to_nat (info_height info)));
        [congruence | now right].
    + rewrite (load2_outside _ _ _ y i Hshape) by (left; exact Hy).
      apply (load2_outside _ (Z.to_nat (info_width info) * k)
                           (Z.to_nat (info_height info)));
        [congruence | now left].
Qed.

Lemma read_then_write_witness :
  exists tr,
    write_png_stream cooperative 7 (Some index_2x1) = Returned SUCCESS tr /\
    handed_off tr = Some index_2x1_info.
Proof.
  apply (read_then_write roomy cooperative 7 index_2x1_info
           COLOR_TYPE_INDEX index_2x1).
  - repeat split; try reflexivity. vm_compute. discriminate.
  - reflexivity.
  - reflexivity.
  - reflexivity.
Defined.

(** ** Writing a file, then reading it *)

(** What a successful call handed to libpng decodes to. *)
Lemma handed_image_decodes codec junk hp img tr info :
  valid_image img = true -> heap_ok hp = true ->
  write_png_stream codec junk (Some img) = Returned SUCCESS tr ->
  handed_off tr = Some info ->
  decode_rows hp info = Value (Some (alpha_forced img), info).
Proof.
  intros Hvalid Hok Hrun Hinfo.
  destruct (valid_image_spec _ Hvalid) as (Hw & Hh & Hshape & _).
  assert (Hw0 : 0 <= img_width img) by lia.
  pose proof (handed_rows_shape _ _ _ _ _ Hw0 Hrun Hinfo) as Hrs.
  destruct (write_png_stream_success _ _ _ _ Hrun)
    as (ct & rs & num & pal & rows & Hlay & Hoff & Hrows & Hsz & Hpal).
  rewrite Hoff in Hinfo. injection Hinfo as <-. simpl in Hrs.
  destruct (row_layout_stride _ _ _ Hlay) as (_ & Hk).
  destruct (palette_comes_back junk img num pal ct (img_width img)
              (img_height img) rows Hvalid Hpal) as (Hpr & Hpi).
  destruct (decode_rows_exact hp
              {| info_width := img_width img; info_height := img_height img;
                 info_color_type := ct; info_num_palette := num;
                 info_palette := pal; info_rows := rows |}
              (img_color_type img)
              (row_layout_model _ _ _ Hlay) Hok Hw Hh)
    as (cells & Hdec & Hcs & Hcells); simpl.
  { rewrite Hrs. f_equal. apply Z2Nat.inj_mul; lia. }
  { exact Hpi. }
  rewrite Hdec. do 3 f_equal. simpl in Hcs, Hcells.
  destruct (alpha_forced_fields img) as (Fw & Fh & Fm & Fn & Fp & Fs).
  apply image_ext; simpl; rewrite ?Hpr; simpl; try congruence.
  apply table_ext; [rewrite Hcs, Fs; exact (eq_sym Hshape)|].
  intros y x.
  destruct (Nat.lt_ge_cases y (rows_of img)) as [Hy|Hy];
    [destruct (Nat.lt_ge_cases x (columns_of img)) as [Hx|Hx]|].
  - destruct (Hcells y x Hy Hx) as (v & Hv & ->).
    symmetry. eapply written_cell_from; eauto.
  - rewrite (load2_outside _ _ _ y x Hcs) by (right; exact Hx).
    symmetry. apply (load2_outside _ (columns_of img) (rows_of img));
      [congruence | now right].
  - rewrite (load2_outside _ _ _ y x Hcs) by (left; exact Hy).
    symmetry. apply (load2_outside _ (columns_of img) (rows_of img));
      [congruence | now left].
Qed.

(** X19 (a file written, then read).  If [write_png_file] returns [SUCCESS]
    for a valid image, it has handed an image to libpng between [fopen] and
    [fclose]; and when libpng reads that image back from the file without
    trouble and the image can be allocated, [read_png_file] returns the image
    written, modulo the alpha-forcing rule.  When the file cannot be opened
    for reading, [read_png_file] returns [NULL]. *)
Theorem file_round_trip codec junk hp img tr :
  valid_image img = true -> heap_ok hp = true ->
  write_png_file codec junk (Some img) = Returned SUCCESS tr ->
  exists info,
    handed_off tr = Some info /\
    hd_error tr = Some fopen_wb /\ last tr perror = fclose /\
    read_png_file true hp (stream_of info) = Value (Some (alpha_forced img)) /\
    read_png_file false hp (stream_of info) = Value None.
Proof.
  intros Hvalid Hok H. unfold write_png_file in H.
  destruct (codec 0%nat); [|discriminate].
  rewrite write_png_stream_from_shift in H.
  destruct (write_png_stream (shift (length [fopen_wb]) codec) junk (Some img))
    as [res tr'|] eqn:Hs; simpl in H; [|discriminate].
  inversion H; subst res tr. clear H.
  destruct (write_png_stream_success _ _ _ _ Hs)
    as (ct & rs & num & pal & rows & _ & Hoff & _).
  eexists. split; [|split; [|split; [|split]]].
  - change (fopen_wb :: tr' ++ [fclose]) with ((fopen_wb :: tr') ++ [fclose]).
    rewrite handed_off_app. simpl. rewrite Hoff. reflexivity.
  - reflexivity.
  - change (fopen_wb :: tr' ++ [fclose]) with ((fopen_wb :: tr') ++ [fclose]).
    apply last_last.
  - unfold read_png_file, read_png_stream, stream_of. simpl.
    now rewrite (handed_image_decodes _ _ _ _ _ _ Hvalid Hok Hs Hoff).
  - reflexivity.
Qed.

Lemma file_round_trip_witness :
  exists info,
    handed_off (trace_of (write_png_file cooperative 7 (Some rgb_1x1_translucent)))
      = Some info /\
    hd_error (trace_of (write_png_file cooperative 7 (Some rgb_1x1_translucent)))
      = Some fopen_wb /\
    last (trace_of (write_png_file cooperative 7 (Some rgb_1x1_translucent)))
         perror = fclose /\
    read_png_file true roomy (stream_of info)
      = Value (Some (alpha_forced rgb_1x1_translucent)) /\
    read_png_file false roomy (stream_of info) = Value None.
Proof.
  apply (file_round_trip cooperative 7 roomy rgb_1x1_translucent); reflexivity.
Defined.

(** ** The round trip *)

(** C1 (round trip).  Let [img] be a valid image and let the image that
    decoding allocates be available.  When [img] is of one of the four colour
    models, its cells hold the member of that model, its rows fit an [int]
    and libpng accepts every call, [write_png_stream] returns [SUCCESS] and
    hands rows to libpng, and decoding what it handed over returns [img]
    modulo the alpha-forcing rule.  The same holds for whatever call of
    [write_png_stream] returned [SUCCESS] for [img].  The image that comes
    back is [alpha_forced img]: [img] itself for Index, Gray and RGBA, and
    for RGB [img] with every alpha at 255, which is [img] itself when its
    cells carry no other alpha. *)
Theorem encode_decode_roundtrip hp img :
  valid_image img = true ->
  heap_ok hp = true ->
  (supported (img_color_type img) = true ->
   typed_cells img = true ->
   img_width img * stride (img_color_type img) < 2 ^ 31 ->
   forall codec junk,
     (forall k, codec k = true) ->
     exists tr info,
       write_png_stream codec junk (Some img) = Returned SUCCESS tr /\
       handed_off tr = Some info /\
       decode_rows hp info = Value (Some (alpha_forced img), info)) /\
  (forall codec junk tr info,
     write_png_stream codec junk (Some img) = Returned SUCCESS tr ->
     handed_off tr = Some info ->
     decode_rows hp info = Value (Some (alpha_forced img), info)) /\
  (img_color_type img <> COLOR_TYPE_RGB -> alpha_forced img = img) /\
  (all_opaque img -> alpha_forced img = img).
Proof.
  intros Hvalid Hok.
  split; [|split; [|split; [apply alpha_forced_other
                           | apply alpha_forced_opaque]]].
  - intros Hm Htyped Hfit codec junk Hc.
    destruct (write_png_stream_returns junk img Hvalid Htyped Hm Hfit)
      as (tr & info & Hrun & Hinfo).
    rewrite <- (write_png_stream_oracle codec cooperative junk (Some img) Hc)
      in Hrun.
    exists tr, info. split; [exact Hrun|]. split; [exact Hinfo|].
    exact (handed_image_decodes _ _ _ _ _ _ Hvalid Hok Hrun Hinfo).
  - intros codec junk tr info Hrun Hinfo.
    exact (handed_image_decodes _ _ _ _ _ _ Hvalid Hok Hrun Hinfo).
Qed.

Lemma encode_decode_roundtrip_witness :
  (exists tr info,
     write_png_stream cooperative 7 (Some rgb_1x1_translucent)
       = Returned SUCCESS tr /\
     handed_off tr = Some info /\
     decode_rows roomy info
       = Value (Some (alpha_forced rgb_1x1_translucent), info)) /\
  alpha_forced rgb_1x1_translucent = rgb_1x1 /\
  (exists tr info,
     write_png_stream cooperative 7 (Some rgb_1x1) = Returned SUCCESS tr /\
     handed_off tr = Some info /\
     decode_rows roomy info = Value (Some (alpha_forced rgb_1x1), info)) /\
  alpha_forced rgb_1x1 = rgb_1x1 /\
  (exists tr info,
     write_png_stream cooperative 7 (Some index_2x1) = Returned SUCCESS tr /\
     handed_off tr = Some info /\
     decode_rows roomy info = Value (Some (alpha_forced index_2x1), info)) /\
  alpha_forced index_2x1 = index_2x1.
Proof.
  split; [|split; [reflexivity|split; [|split; [|split]]]].
  - apply (proj1 (encode_decode_roundtrip roomy rgb_1x1_translucent
                    eq_refl eq_refl));
      [reflexivity | reflexivity | vm_compute; reflexivity | reflexivity].
  - apply (proj1 (encode_decode_roundtrip roomy rgb_1x1 eq_refl eq_refl));
      [reflexivity | reflexivity | vm_compute; reflexivity | reflexivity].
  - apply (proj2 (proj2 (proj2 (encode_decode_roundtrip roomy rgb_1x1
                                  eq_refl eq_refl)))).
    intros y x c Hc.
    destruct y as [|y]; [destruct x as [|x]|]; simpl in Hc;
      try (destruct x; discriminate); try (destruct y; discriminate).
    now inversion Hc.
  - apply (proj1 (encode_decode_roundtrip roomy index_2x1 eq_refl eq_refl));
      [reflexivity | reflexivity | vm_compute; reflexivity | reflexivity].
  - apply (proj1 (proj2 (proj2 (encode_decode_roundtrip roomy index_2x1
                                  eq_refl eq_refl)))).
    discriminate.
Defined.
